(** * Scheduling and delivery core of the channel-posting bot (src/bot.py)

    A shallow embedding of the post store ([Database]), the delivery
    executor ([publish_scheduled_post]), the catch-up sweep
    ([check_pending_posts]), the startup rebuild ([on_startup]), the
    time-entry handler ([process_post_time]) and the other handlers of the
    conversations that add a channel and schedule a post, followed by the
    properties of the specification that concern them and by further
    properties of the code.

    Conventions.
    - A naive [datetime] is a [Z]: microseconds since the epoch of the
      proleptic calendar; a [timedelta] is a [Z] number of microseconds.
    - SQL tables are lists of rows in insertion order; a query is a
      comprehension over them.
    - Text is held as its UTF-8 bytes; slices, [strip] and [strptime]
      work on its code points.
    - Awaited calls to the database driver and to the Telegram transport
      may raise. Whether a given call raises is an input of the model
      (type [io]). A read that raises has no effect. A writing method may
      raise at its statement, which then has no effect on the tables, or
      at a later await, after the statement has been carried out (type
      [wio]).
    - Python exceptions are threaded through the monad [M]; [try_except]
      is [try: ... except Exception as e: ...].
    - Handlers are run one at a time: interleavings of two handlers at
      their awaits are outside the model. *)

From Stdlib Require Import Ascii String.
From stdpp Require Import base numbers list strings gmap sorting.

Local Open Scope string_scope.
Local Open Scope Z_scope.

(** ** Time *)

Definition datetime := Z.
Definition timedelta := Z.

Definition second : timedelta := 1000000.
Definition minute : timedelta := 60 * second.
Definition hour : timedelta := 60 * minute.
Definition day : timedelta := 24 * hour.

Definition minutes (n : Z) : timedelta := n * minute.
Definition hours (n : Z) : timedelta := n * hour.
Definition days (n : Z) : timedelta := n * day.

(** [datetime.date()]: the calendar day a datetime falls on (a day number). *)
Definition date_of (t : datetime) : Z := t `div` day.

(** A [datetime.time] as produced by [strptime(..., "%H:%M").time()]:
    seconds and microseconds are zero. *)
Record time := mk_time { t_hour : Z; t_minute : Z }.

(** [datetime.combine(date, time)] *)
Definition combine (d : Z) (t : time) : datetime :=
  d * day + hours (t_hour t) + minutes (t_minute t).

(** ** Text: code points, [str.strip()] and [strptime(s, "%H:%M")] *)

(** A Python [str] is a sequence of code points; a [string] here holds
    its UTF-8 bytes. *)
Definition code (c : ascii) : Z := Z.of_N (N_of_ascii c).

(** The code points of a text: a byte below 128 is one code point, a byte
    from 192 on opens a sequence of two, three or four bytes. (Bytes that
    are not well-formed UTF-8, which a [str] never gives, are taken one
    by one.) *)
Fixpoint code_points (s : string) : list Z :=
  match s with
  | EmptyString => []
  | String b s1 =>
      let single := code b :: code_points s1 in
      if bool_decide (192 ≤ code b < 224) then
        match s1 with
        | String b1 s2 =>
            ((code b - 192) * 64 + (code b1 - 128)) :: code_points s2
        | _ => single
        end
      else if bool_decide (224 ≤ code b < 240) then
        match s1 with
        | String b1 (String b2 s3) =>
            ((code b - 224) * 4096 + (code b1 - 128) * 64 + (code b2 - 128))
              :: code_points s3
        | _ => single
        end
      else if bool_decide (240 ≤ code b < 248) then
        match s1 with
        | String b1 (String b2 (String b3 s4)) =>
            ((code b - 240) * 262144 + (code b1 - 128) * 4096
             + (code b2 - 128) * 64 + (code b3 - 128))
              :: code_points s4
        | _ => single
        end
      else single
  end.

(** [str.isspace] of one code point: the white space of Unicode. *)
Definition is_space (c : Z) : bool :=
  bool_decide (9 ≤ c ≤ 13) || bool_decide (28 ≤ c ≤ 32)
  || bool_decide (c = 133) || bool_decide (c = 160)
  || bool_decide (c = 5760) || bool_decide (8192 ≤ c ≤ 8202)
  || bool_decide (c = 8232) || bool_decide (c = 8233)
  || bool_decide (c = 8239) || bool_decide (c = 8287)
  || bool_decide (c = 12288).

Fixpoint lstrip (s : list Z) : list Z :=
  match s with
  | c :: s' => if is_space c then lstrip s' else s
  | [] => []
  end.

Definition strip (s : list Z) : list Z :=
  rev (lstrip (rev (lstrip s))).

(** The decimal digits of Unicode ([\d] of the module [re] on a [str]):
    each script has its ten digits in a row, and the list gives the code
    point of the digit zero of each (Unicode 14.0, the table of
    Python 3.11). *)
Definition digit_zeros : list Z :=
  [48; 1632; 1776; 1984; 2406; 2534; 2662; 2790; 2918; 3046; 3174; 3302;
   3430; 3558; 3664; 3792; 3872; 4160; 4240; 6112; 6160; 6470; 6608; 6784;
   6800; 6992; 7088; 7232; 7248; 42528; 43216; 43264; 43472; 43504; 43600;
   44016; 65296; 66720; 68912; 69734; 69872; 69942; 70096; 70384; 70736;
   70864; 71248; 71360; 71472; 71904; 72016; 72784; 73040; 73120; 92768;
   92864; 93008; 120782; 120792; 120802; 120812; 120822; 123200; 123632;
   125264; 130032].

(** The value of a decimal digit, as [int] reads it. *)
Definition digit (c : Z) : option Z :=
  (λ zero, c - zero)
    <$> head (filter (λ zero, zero ≤ c ≤ zero + 9) digit_zeros).

(** The directive [%H] is the regular expression [2[0-3]|[0-1]\d|\d]:
    two digits when they form an hour, otherwise one digit. The classes
    [[0-3]] and [[0-1]] hold ASCII digits only. *)
Definition parse_H (s : list Z) : option (Z * list Z) :=
  match s with
  | c1 :: rest =>
      let one_digit := (λ d1, (d1, rest)) <$> digit c1 in
      match rest with
      | c2 :: rest' =>
          if bool_decide (c1 = 50 ∧ 48 ≤ c2 ≤ 51)
          then Some (20 + (c2 - 48), rest')
          else if bool_decide (48 ≤ c1 ≤ 49)
          then match digit c2 with
               | Some d2 => Some (10 * (c1 - 48) + d2, rest')
               | None => one_digit
               end
          else one_digit
      | [] => one_digit
      end
  | [] => None
  end.

(** The directive [%M] is [[0-5]\d|\d]. *)
Definition parse_M (s : list Z) : option (Z * list Z) :=
  match s with
  | c1 :: rest =>
      let one_digit := (λ d1, (d1, rest)) <$> digit c1 in
      match rest with
      | c2 :: rest' =>
          if bool_decide (48 ≤ c1 ≤ 53)
          then match digit c2 with
               | Some d2 => Some (10 * (c1 - 48) + d2, rest')
               | None => one_digit
               end
          else one_digit
      | [] => one_digit
      end
  | [] => None
  end.

(** [datetime.strptime(s, "%H:%M").time()]; [None] is [ValueError]
    (no match, or "unconverted data remains"). *)
Definition strptime_HM (s : list Z) : option time :=
  match parse_H s with
  | Some (h, c :: rest) =>
      if bool_decide (c = 58) then
        match parse_M rest with
        | Some (m, []) => Some (mk_time h m)
        | _ => None
        end
      else None
  | _ => None
  end.

(** ** Slices of text *)

(** A Python [str] is a sequence of code points; a [string] here holds
    its UTF-8 bytes. In UTF-8 every code point starts with a byte that is
    not of the form [10xxxxxx] and continues with bytes of that form. *)
Definition is_continuation (c : ascii) : bool :=
  bool_decide (128 ≤ code c < 192).

(** [s[:n]]: the first [n] code points of [s], all of [s] when it has
    fewer. *)
Fixpoint take_chars (n : nat) (s : string) : string :=
  match s with
  | EmptyString => EmptyString
  | String c s' =>
      if is_continuation c then String c (take_chars n s')
      else
        match n with
        | O => EmptyString
        | S k => String c (take_chars k s')
        end
  end.

(** ** Tables *)

Record User := mk_user {
  u_id : Z;
  u_telegram_id : Z;
  u_username : option string;
  u_full_name : option string;
  u_channels_limit : Z;
  u_posts_per_day_limit : Z;
  u_subscribed : bool;
  u_subscription_until : option datetime;
  u_created_at : datetime;
  u_updated_at : datetime
}.

Record Channel := mk_channel {
  c_id : Z;
  c_user_id : Z;
  c_channel_id : string;
  c_channel_title : string;
  c_is_active : bool;
  c_created_at : datetime
}.

Record ScheduledPost := mk_post {
  sp_id : Z;
  sp_user_id : Z;
  sp_channel_id : string;
  sp_message_text : string;
  sp_photo_id : option string;
  sp_scheduled_time : datetime;
  sp_is_published : bool;
  sp_created_at : datetime;
  sp_published_at : option datetime
}.

(** The connected store: the backend flag of the [Database] object, the
    three tables the core uses and the two id sequences. *)
Record Database := mk_db {
  is_sqlite : bool;
  users : list User;
  channels : list Channel;
  scheduled_posts : list ScheduledPost;
  users_seq : Z;
  posts_seq : Z
}.

Definition with_users (d : Database) (us : list User) (seq : Z) : Database :=
  mk_db (is_sqlite d) us (channels d) (scheduled_posts d) seq (posts_seq d).

Definition with_posts (d : Database) (ps : list ScheduledPost) (seq : Z)
  : Database :=
  mk_db (is_sqlite d) (users d) (channels d) ps (users_seq d) seq.

(** [Config] *)
Definition TARIFF_CHANNELS_LIMIT : Z := 2.
Definition TARIFF_POSTS_PER_DAY : Z := 8.

(** Column defaults of [CREATE TABLE users]. *)
Definition DEFAULT_CHANNELS_LIMIT : Z := 1.
Definition DEFAULT_POSTS_PER_DAY_LIMIT : Z := 3.

(** ** Transport, log and scheduler *)

Inductive Notice :=
  | PostPublishedNotice (excerpt : string)
  | BotStartedNotice (users_in_db : nat) (loaded_count : nat).

Inductive Outbound :=
  | send_photo (chat_id : string) (photo : string) (caption : string)
  | send_message (chat_id : string) (text : string)
  | send_notice (telegram_id : Z) (n : Notice).

(** One call to the bot API: the post it was made for (if any), the
    request, and whether the transport accepted it. *)
Record TransportCall := mk_call {
  for_post : option Z;
  request : Outbound;
  delivered : bool
}.

Inductive Exn := StorageError | TransportError | NameError.

Inductive Level := INFO | WARNING | ERROR.

Inductive Event :=
  | ev_store_error (method : string)
  | ev_post_missing_or_published (post_id : Z)
  | ev_published (post_id : Z) (with_photo : bool)
  | ev_publish_failed (post_id : Z) (e : Exn)
  | ev_notify_failed (telegram_id : Z)
  | ev_sweep_failed (e : Exn)
  | ev_starting
  | ev_db_connected
  | ev_scheduler_started
  | ev_loaded (loaded_count : nat)
  | ev_load_failed (e : Exn)
  | ev_admin_notice_failed (e : Exn)
  | ev_started.

(** The job store of the scheduler: the recurring job ['check_posts']
    (its interval) and the one-shot jobs ["post_<id>"], keyed by the post
    identifier, each with its run date. *)
Record Scheduler := mk_scheduler {
  running : bool;
  check_posts_job : option timedelta;
  post_jobs : gmap Z datetime
}.

Record World := mk_world {
  db : Database;
  trace : list TransportCall;
  log : list (Level * Event);
  scheduler : Scheduler
}.

Definition set_db (d : Database) (w : World) : World :=
  mk_world d (trace w) (log w) (scheduler w).
Definition set_scheduler (s : Scheduler) (w : World) : World :=
  mk_world (db w) (trace w) (log w) s.
Definition add_call (c : TransportCall) (w : World) : World :=
  mk_world (db w) (trace w ++ [c]) (log w) (scheduler w).
Definition add_log (l : Level) (e : Event) (w : World) : World :=
  mk_world (db w) (trace w) (log w ++ [(l, e)]) (scheduler w).

(** ** The monad of effects: state and exceptions *)

Inductive Outcome (A : Type) :=
  | Returned (a : A)
  | Raised (e : Exn).
Arguments Returned {A} a.
Arguments Raised {A} e.

Definition M (A : Type) : Type := World → Outcome A * World.

Definition ret {A} (a : A) : M A := λ w, (Returned a, w).

Definition bind {A B} (m : M A) (k : A → M B) : M B :=
  λ w, match m w with
       | (Returned a, w') => k a w'
       | (Raised e, w') => (Raised e, w')
       end.

Definition raise {A} (e : Exn) : M A := λ w, (Raised e, w).

Definition try_except {A} (m : M A) (handler : Exn → M A) : M A :=
  λ w, match m w with
       | (Returned a, w') => (Returned a, w')
       | (Raised e, w') => handler e w'
       end.

Definition modify (f : World → World) : M unit := λ w, (Returned tt, f w).
Definition gets {A} (f : World → A) : M A := λ w, (Returned (f w), w).

Notation "'do' x <- m ; k" := (bind m (λ x, k))
  (at level 10, x name, m at level 100, k at level 200,
   format "'[v' 'do'  x  <-  m ; '/' k ']'").
Notation "'exec' m ; k" := (bind m (λ _, k))
  (at level 10, m at level 100, k at level 200,
   format "'[v' 'exec'  m ; '/' k ']'").

Definition logger (l : Level) (e : Event) : M unit := modify (add_log l e).

(** Whether an awaited call to the driver or to the transport completes. *)
Inductive io := Completes | Fails.

(** A driver call: raises without touching the tables, or completes. *)
Definition driver {A} (call : io) (query : Database → A * Database) : M A :=
  match call with
  | Fails => raise StorageError
  | Completes =>
      λ w, let '(a, d) := query (db w) in (Returned a, set_db d w)
  end.

(** How the awaited calls of a writing method end. Such a method awaits
    its statement and then something more: on SQLite the commit (and, in
    [get_or_create_user], the SELECT that reads the new row back), on
    PostgreSQL the release of the connection when the [async with] block
    is left. [statement c] is the outcome [c] of the statement, the later
    awaits completing. [FailsAfterWrite] is a failure of a later await: the
    statement has been carried out, and what it wrote is what the next
    statements on the connection see. *)
Inductive wio :=
  | statement (c : io)
  | FailsAfterWrite.
Coercion statement : io >-> wio.

(** A call of a writing method. The statement itself raises where
    [query] returns [None] (a constraint is violated), with the tables as
    the statement leaves them. *)
Definition write {A} (call : wio) (query : Database → option A * Database)
  : M A :=
  match call with
  | statement Fails => raise StorageError
  | statement Completes =>
      λ w, let '(a, d) := query (db w) in
           match a with
           | Some a => (Returned a, set_db d w)
           | None => (Raised StorageError, set_db d w)
           end
  | FailsAfterWrite =>
      λ w, let '(_, d) := query (db w) in (Raised StorageError, set_db d w)
  end.

(** A call to the bot API on behalf of a post. *)
Definition bot_call (call : io) (post : option Z) (r : Outbound) : M unit :=
  match call with
  | Fails => exec modify (add_call (mk_call post r false)); raise TransportError
  | Completes => modify (add_call (mk_call post r true))
  end.

(** Python truthiness of an optional string and of an integer. *)
Definition truthy_str (s : option string) : bool :=
  match s with
  | Some s => negb (bool_decide (s = EmptyString))
  | None => false
  end.
Definition truthy_int (n : Z) : bool := negb (bool_decide (n = 0)).

(** ** The post store: methods of [Database] *)

Definition select_user (telegram_id : Z) (d : Database) : option User :=
  head (filter (λ u, u_telegram_id u = telegram_id) (users d)).

(** [INSERT INTO users (telegram_id, username, full_name)]: the other
    columns take their defaults. *)
Definition insert_user (now : datetime) (telegram_id : Z)
    (username full_name : option string) (d : Database) : User * Database :=
  let u := mk_user (users_seq d + 1) telegram_id username full_name
             DEFAULT_CHANNELS_LIMIT DEFAULT_POSTS_PER_DAY_LIMIT
             false None now now in
  (u, with_users d (users d ++ [u]) (users_seq d + 1)).

Definition set_username (id : Z) (username : option string) (now : datetime)
    (u : User) : User :=
  if bool_decide (u_id u = id)
  then mk_user (u_id u) (u_telegram_id u) username (u_full_name u)
         (u_channels_limit u) (u_posts_per_day_limit u) (u_subscribed u)
         (u_subscription_until u) (u_created_at u) now
  else u.

Definition get_or_create_user (call : wio) (now : datetime) (telegram_id : Z)
    (username full_name : option string) : M (option User) :=
  try_except
    (write call (λ d,
       if negb (is_sqlite d) then
         match select_user telegram_id d with
         | None =>
             let '(u, d') := insert_user now telegram_id username full_name d in
             (Some (Some u), d')
         | Some u =>
             if truthy_str username && negb (bool_decide (u_username u = username))
             then (Some (Some u),
                   with_users d (set_username (u_id u) username now <$> users d)
                     (users_seq d))
             else (Some (Some u), d)
         end
       else
         match select_user telegram_id d with
         | None =>
             let '(_, d') := insert_user now telegram_id username full_name d in
             (Some (select_user telegram_id d'), d')
         | Some u => (Some (Some u), d)
         end))
    (λ _, exec logger ERROR (ev_store_error "get_or_create_user"); ret None).

(** The single [UPDATE users SET subscribed, subscription_until,
    channels_limit, posts_per_day_limit, updated_at WHERE telegram_id]. *)
Definition grant (telegram_id : Z) (subscribed : bool)
    (subscription_until now : datetime) (u : User) : User :=
  if bool_decide (u_telegram_id u = telegram_id)
  then mk_user (u_id u) (u_telegram_id u) (u_username u) (u_full_name u)
         TARIFF_CHANNELS_LIMIT TARIFF_POSTS_PER_DAY subscribed
         (Some subscription_until) (u_created_at u) now
  else u.

Definition update_user_subscription (call : wio) (now_local now_db : datetime)
    (telegram_id : Z) (subscribed : bool) (days_ : Z) : M bool :=
  try_except
    (let subscription_until := now_local + days days_ in
     write call (λ d,
       let matched :=
         length (filter (λ u, u_telegram_id u = telegram_id) (users d)) in
       let d' :=
         with_users d
           (grant telegram_id subscribed subscription_until now_db <$> users d)
           (users_seq d) in
       (Some (if negb (is_sqlite d) then bool_decide (matched = 1%nat)
              else true), d')))
    (λ _, exec logger ERROR (ev_store_error "update_user_subscription");
          ret false).

(** [INSERT INTO scheduled_posts ... RETURNING id]. The identifier is the
    next value of the sequence. PostgreSQL enforces the foreign key
    [user_id REFERENCES users(id)]: for a user id without a row the
    statement raises, and the value taken from the sequence is not given
    back. SQLite, as the connection is opened, does not enforce it. *)
Definition insert_post (now : datetime) (user_id : Z)
    (channel_id message_text : string) (scheduled_time : datetime)
    (photo_id : option string) (d : Database) : option (option Z) * Database :=
  let post_id := posts_seq d + 1 in
  let sp := mk_post post_id user_id channel_id message_text photo_id
              scheduled_time false now None in
  if negb (is_sqlite d)
     && negb (bool_decide (Exists (λ u, u_id u = user_id) (users d)))
  then (None, with_posts d (scheduled_posts d) post_id)
  else (Some (Some post_id), with_posts d (scheduled_posts d ++ [sp]) post_id).

Definition add_scheduled_post (call : wio) (now : datetime) (user_id : Z)
    (channel_id message_text : string) (scheduled_time : datetime)
    (photo_id : option string) : M (option Z) :=
  try_except
    (write call (insert_post now user_id channel_id message_text
                   scheduled_time photo_id))
    (λ _, exec logger ERROR (ev_store_error "add_scheduled_post"); ret None).

(** [FROM scheduled_posts sp JOIN users u ON sp.user_id = u.id
     JOIN channels c ON sp.channel_id = c.channel_id AND c.user_id = u.id] *)
Definition bindings_of (us : list User) (cs : list Channel)
    (sp : ScheduledPost) : list (ScheduledPost * User * Channel) :=
  u ← filter (λ u, sp_user_id sp = u_id u) us;
  c ← filter (λ c, sp_channel_id sp = c_channel_id c ∧ c_user_id c = u_id u) cs;
  [(sp, u, c)].

Definition joined (d : Database) : list (ScheduledPost * User * Channel) :=
  scheduled_posts d ≫= bindings_of (users d) (channels d).

(** [SELECT sp.*, u.telegram_id, c.channel_id as channel_ident] *)
Record PublishRow := mk_row {
  pr_post : ScheduledPost;
  pr_telegram_id : Z;
  pr_channel_ident : string
}.

Definition select_row (j : ScheduledPost * User * Channel) : PublishRow :=
  mk_row j.1.1 (u_telegram_id j.1.2) (c_channel_id j.2).

Definition earlier (r1 r2 : PublishRow) : Prop :=
  sp_scheduled_time (pr_post r1) ≤ sp_scheduled_time (pr_post r2).

Global Instance earlier_dec r1 r2 : Decision (earlier r1 r2).
Proof. unfold earlier. apply _. Defined.

Definition select_posts_to_publish (now : datetime) (d : Database)
  : list PublishRow :=
  merge_sort earlier
    (select_row <$>
       filter (λ j, sp_scheduled_time j.1.1 ≤ now + minutes 5
                    ∧ sp_is_published j.1.1 = false
                    ∧ c_is_active j.2 = true)
         (joined d)).

Definition get_posts_to_publish (call : io) (now : datetime)
  : M (list PublishRow) :=
  try_except
    (driver call (λ d, (select_posts_to_publish now d, d)))
    (λ _, exec logger ERROR (ev_store_error "get_posts_to_publish"); ret []).

(** [UPDATE scheduled_posts SET is_published = TRUE,
     published_at = CURRENT_TIMESTAMP WHERE id = $1] *)
Definition set_published (post_id : Z) (now : datetime) (sp : ScheduledPost)
  : ScheduledPost :=
  if bool_decide (sp_id sp = post_id)
  then mk_post (sp_id sp) (sp_user_id sp) (sp_channel_id sp)
         (sp_message_text sp) (sp_photo_id sp) (sp_scheduled_time sp)
         true (sp_created_at sp) (Some now)
  else sp.

Definition update_published (post_id : Z) (now : datetime) (d : Database)
  : Database :=
  with_posts d (set_published post_id now <$> scheduled_posts d) (posts_seq d).

Definition mark_post_published (call : wio) (now : datetime) (post_id : Z)
  : M bool :=
  try_except
    (exec write call (λ d, (Some tt, update_published post_id now d));
     ret true)
    (λ _, exec logger ERROR (ev_store_error "mark_post_published"); ret false).

Definition newer (u1 u2 : User) : Prop := u_created_at u2 ≤ u_created_at u1.

Global Instance newer_dec u1 u2 : Decision (newer u1 u2).
Proof. unfold newer. apply _. Defined.

Definition get_all_users (call : io) : M (list User) :=
  try_except
    (driver call (λ d, (merge_sort newer (users d), d)))
    (λ _, exec logger ERROR (ev_store_error "get_all_users"); ret []).

(** ** Helpers and the delivery executor *)

Definition notify_user (call : io) (telegram_id : Z) (n : Notice) : M bool :=
  try_except
    (exec bot_call call None (send_notice telegram_id n); ret true)
    (λ _, exec logger ERROR (ev_notify_failed telegram_id); ret false).

(** The outcome of each awaited call of one run of the executor. *)
Record PublishEnv := mk_env {
  load_call : io;
  send_call : io;
  mark_call : wio;
  notify_call : io
}.

(** The executor's own query: the join of [get_posts_to_publish] with
    [WHERE sp.id = $1 AND sp.is_published = FALSE]; [fetchrow] takes the
    first row. *)
Definition select_post_to_publish (post_id : Z) (d : Database)
  : option PublishRow :=
  head (select_row <$>
          filter (λ j, sp_id j.1.1 = post_id ∧ sp_is_published j.1.1 = false)
            (joined d)).

(** [message_text[:100]] *)
Definition excerpt (s : string) : string := take_chars 100 s.

Definition publish_request (post : PublishRow) : Outbound :=
  let channel_id := pr_channel_ident post in
  let message_text := sp_message_text (pr_post post) in
  match sp_photo_id (pr_post post) with
  | Some photo_id =>
      if truthy_str (Some photo_id)
      then send_photo channel_id photo_id message_text
      else send_message channel_id message_text
  | None => send_message channel_id message_text
  end.

Definition publish_scheduled_post (e : PublishEnv) (now : datetime)
    (post_id : Z) : M unit :=
  try_except
    (do post <- driver (load_call e) (λ d, (select_post_to_publish post_id d, d));
     match post with
     | None => logger WARNING (ev_post_missing_or_published post_id)
     | Some post =>
         exec bot_call (send_call e) (Some post_id) (publish_request post);
         exec logger INFO
                (ev_published post_id (truthy_str (sp_photo_id (pr_post post))));
         do _ <- mark_post_published (mark_call e) now post_id;
         let user_id := pr_telegram_id post in
         if truthy_int user_id then
           do _ <- notify_user (notify_call e) user_id
                     (PostPublishedNotice
                        (excerpt (sp_message_text (pr_post post))));
           ret tt
         else ret tt
     end)
    (λ exn, logger ERROR (ev_publish_failed post_id exn)).

(** ** The catch-up sweep *)

Fixpoint for_each {A} (body : nat → A → M unit) (i : nat) (l : list A)
  : M unit :=
  match l with
  | [] => ret tt
  | x :: l' => exec body i x; for_each body (S i) l'
  end.

(** The [i]-th iteration of the sweep runs the executor with the calls
    [envs i] at database time [clock i]. *)
Definition check_pending_posts (query_call : io) (now : datetime)
    (envs : nat → PublishEnv) (clock : nat → datetime) : M unit :=
  try_except
    (do posts <- get_posts_to_publish query_call now;
     for_each
       (λ i post,
          let post_id := sp_id (pr_post post) in
          if truthy_int post_id
          then publish_scheduled_post (envs i) (clock i) post_id
          else ret tt)
       0%nat posts)
    (λ exn, logger ERROR (ev_sweep_failed exn)).

(** ** The scheduler *)

Definition set_post_jobs (jobs : gmap Z datetime) (s : Scheduler) : Scheduler :=
  mk_scheduler (running s) (check_posts_job s) jobs.

Definition scheduler_start : M unit :=
  modify (λ w, set_scheduler
                 (mk_scheduler true (check_posts_job (scheduler w))
                    (post_jobs (scheduler w))) w).

(** [scheduler.add_job(check_pending_posts, 'interval', minutes=1,
     id='check_posts', replace_existing=True)] *)
Definition add_check_posts_job (every : timedelta) : M unit :=
  modify (λ w, set_scheduler
                 (mk_scheduler (running (scheduler w)) (Some every)
                    (post_jobs (scheduler w))) w).

(** [scheduler.add_job(publish_scheduled_post, 'date', run_date=...,
     args=[post_id], id=f"post_{post_id}", replace_existing=True)] *)
Definition add_post_job (post_id : Z) (run_date : datetime) : M unit :=
  modify (λ w, set_scheduler
                 (set_post_jobs (<[post_id := run_date]> (post_jobs (scheduler w)))
                    (scheduler w)) w).

(** A one-shot job leaves the job store when it fires. *)
Definition remove_post_job (post_id : Z) : M unit :=
  modify (λ w, set_scheduler
                 (set_post_jobs (delete post_id (post_jobs (scheduler w)))
                    (scheduler w)) w).

Definition fire_post_job (e : PublishEnv) (post_id : Z) (now : datetime)
  : M unit :=
  exec remove_post_job post_id;
  publish_scheduled_post e now post_id.

Definition runs_before (j1 j2 : Z * datetime) : Prop := j1.2 ≤ j2.2.

Global Instance runs_before_dec j1 j2 : Decision (runs_before j1 j2).
Proof. unfold runs_before. apply _. Defined.

(** The one-shot jobs whose run date has been reached at [t], earliest
    first. *)
Definition due_post_jobs (t : datetime) (s : Scheduler) : list (Z * datetime) :=
  merge_sort runs_before (filter (λ j, j.2 ≤ t) (map_to_list (post_jobs s))).

(** The clock reaches [t]. A scheduler that has been started fires every
    one-shot job due by then, in the order of the run dates; [envs post_id]
    gives the calls of the run for that post and [db_clock post_id] the
    database time at its mark. A scheduler that has not been started
    fires nothing: its jobs stay in the job store. *)
Definition advance_clock (envs : Z → PublishEnv) (db_clock : Z → datetime)
    (t : datetime) : M unit :=
  do s <- gets scheduler;
  if running s
  then for_each (λ _ j, fire_post_job (envs j.1) j.1 (db_clock j.1)) 0%nat
         (due_post_jobs t s)
  else ret tt.

(** ** Startup *)

Record StartupEnv := mk_startup_env {
  connect_call : io;
  rebuild_call : io;
  users_call : io;
  admin_call : io
}.

Definition db_connect (call : io) : M unit :=
  match call with
  | Fails => exec logger ERROR (ev_store_error "connect"); raise StorageError
  | Completes => ret tt
  end.

(** [SELECT id, scheduled_time FROM scheduled_posts
     WHERE is_published = FALSE AND scheduled_time > NOW()] *)
Definition select_unpublished_future (now : datetime) (d : Database)
  : list (Z * datetime) :=
  (λ sp, (sp_id sp, sp_scheduled_time sp)) <$>
    filter (λ sp, sp_is_published sp = false ∧ sp_scheduled_time sp > now)
      (scheduled_posts d).

(** The loop over the rows: the clock is read once per row. *)
Fixpoint load_jobs (utcnow : nat → datetime) (i : nat)
    (posts : list (Z * datetime)) (loaded_count : nat) : M nat :=
  match posts with
  | [] => ret loaded_count
  | (post_id, scheduled_datetime) :: posts' =>
      if bool_decide (scheduled_datetime > utcnow i)
      then exec add_post_job post_id scheduled_datetime;
           load_jobs utcnow (S i) posts' (S loaded_count)
      else load_jobs utcnow (S i) posts' loaded_count
  end.

Definition on_startup (e : StartupEnv) (admin_id : Z) (now_db : datetime)
    (utcnow : nat → datetime) : M unit :=
  exec logger INFO ev_starting;
  exec db_connect (connect_call e);
  exec logger INFO ev_db_connected;
  exec scheduler_start;
  exec add_check_posts_job (minutes 1);
  exec logger INFO ev_scheduler_started;
  do loaded_count <-
    try_except
      (do posts <- driver (rebuild_call e)
                     (λ d, (select_unpublished_future now_db d, d));
       do n <- load_jobs utcnow 0%nat posts 0%nat;
       exec logger INFO (ev_loaded n);
       ret (Some n))
      (λ exn, exec logger ERROR (ev_load_failed exn); ret None);
  exec try_except
         (do all_users <- get_all_users (users_call e);
          match loaded_count with
          | None => raise NameError
          | Some n =>
              bot_call (admin_call e) None
                (send_notice admin_id (BotStartedNotice (length all_users) n))
          end)
         (λ exn, logger ERROR (ev_admin_notice_failed exn));
  logger INFO ev_started.

(** ** The time-entry handler *)

(** The data collected by the earlier steps of the conversation. *)
Record StateData := mk_data {
  sd_user_id : option Z;
  sd_channel_id : option string;
  sd_message_text : option string;
  sd_photo_id : option string
}.

(** What the handler answers. *)
Inductive Reply :=
  | reply_send_time
  | reply_too_soon
  | reply_too_far_ahead
  | reply_bad_format
  | reply_bad_data
  | reply_save_failed
  | reply_scheduled (post_id : Z) (scheduled_datetime : datetime).

Inductive TimeCheck := TimeAccepted | TooSoon | TooFarAhead.

(** The two window checks, each against its own reading of the clock. *)
Definition check_post_time (utcnow_lead utcnow_horizon : datetime)
    (scheduled_datetime : datetime) : TimeCheck :=
  if bool_decide (scheduled_datetime < utcnow_lead + minutes 2) then TooSoon
  else if bool_decide (scheduled_datetime > utcnow_horizon + days 1)
       then TooFarAhead
       else TimeAccepted.

(** [await message.answer(...)]: the reply is sent to the user. The call
    may raise (the transport fails, or Telegram refuses the text); the
    handler does not catch it. *)
Definition answer (call : io) (r : Reply) : M Reply :=
  match call with
  | Completes => ret r
  | Fails => raise TransportError
  end.

(** Every path of the handler ends with one answer; on the path that
    stores the post the answer comes after the INSERT and [add_job]. *)
Definition process_post_time (text : option string)
    (utcnow_today utcnow_lead utcnow_horizon : datetime)
    (data : StateData) (save_call : wio) (now_db : datetime)
    (answer_call : io) : M Reply :=
  match text with
  | None => answer answer_call reply_send_time
  | Some text =>
  if bool_decide (text = EmptyString) then answer answer_call reply_send_time
  else
  let time_str := strip (code_points text) in
  match strptime_HM time_str with
  | None => answer answer_call reply_bad_format
  | Some post_time =>
      let today := date_of utcnow_today in
      let scheduled_datetime := combine today post_time in
      match check_post_time utcnow_lead utcnow_horizon scheduled_datetime with
      | TooSoon => answer answer_call reply_too_soon
      | TooFarAhead => answer answer_call reply_too_far_ahead
      | TimeAccepted =>
          match sd_user_id data, sd_channel_id data, sd_message_text data with
          | Some user_id, Some channel_id, Some message_text =>
              if truthy_int user_id && truthy_str (Some channel_id)
                 && truthy_str (Some message_text)
              then
                do post_id <- add_scheduled_post save_call now_db user_id
                                channel_id message_text scheduled_datetime
                                (sd_photo_id data);
                match post_id with
                | Some post_id =>
                    if truthy_int post_id then
                      exec add_post_job post_id scheduled_datetime;
                      answer answer_call
                        (reply_scheduled post_id scheduled_datetime)
                    else answer answer_call reply_save_failed
                | None => answer answer_call reply_save_failed
                end
              else answer answer_call reply_bad_data
          | _, _, _ => answer answer_call reply_bad_data
          end
      end
  end
  end.

(** ** Observations used in the statements *)

Definition run {A} (m : M A) (w : World) : World := (m w).2.
Definition result {A} (m : M A) (w : World) : Outcome A := (m w).1.

Definition find_post (post_id : Z) (d : Database) : option ScheduledPost :=
  head (filter (λ sp, sp_id sp = post_id) (scheduled_posts d)).

Definition is_channel_send (r : Outbound) : bool :=
  match r with
  | send_photo _ _ _ | send_message _ _ => true
  | send_notice _ _ => false
  end.

(** The messages delivered to channels for a given post. *)
Definition deliveries (post_id : Z) (tr : list TransportCall)
  : list TransportCall :=
  filter (λ c, for_post c = Some post_id ∧ delivered c = true
               ∧ is_channel_send (request c) = true) tr.

(** Constraints of the schema: primary keys and [UNIQUE] columns. *)
Record well_formed (d : Database) : Prop := mk_wf {
  wf_post_ids : NoDup (sp_id <$> scheduled_posts d);
  wf_user_ids : NoDup (u_id <$> users d);
  wf_telegram_ids : NoDup (u_telegram_id <$> users d);
  wf_channels : NoDup ((λ c, (c_user_id c, c_channel_id c)) <$> channels d)
}.

Definition no_faults : PublishEnv := mk_env Completes Completes Completes Completes.

(** The world after the send has been accepted: the mark, then the
    notice to the owner. *)
Definition after_mark (call : wio) (now : datetime) (post_id : Z) (w : World)
  : World :=
  match call with
  | statement Completes => set_db (update_published post_id now (db w)) w
  | statement Fails => add_log ERROR (ev_store_error "mark_post_published") w
  | FailsAfterWrite =>
      add_log ERROR (ev_store_error "mark_post_published")
        (set_db (update_published post_id now (db w)) w)
  end.

Definition after_notice (call : io) (telegram_id : Z) (n : Notice) (w : World)
  : World :=
  if truthy_int telegram_id then
    match call with
    | Completes => add_call (mk_call None (send_notice telegram_id n) true) w
    | Fails =>
        add_log ERROR (ev_notify_failed telegram_id)
          (add_call (mk_call None (send_notice telegram_id n) false) w)
    end
  else w.

(** [others_untouched p w w']: from [w] to [w'] the users and the
    channels are the same, the rows of post [p] are the same,
    and no call was made on behalf of [p]. *)
Definition others_untouched (p : Z) (w w' : World) : Prop :=
  users (db w') = users (db w) ∧
  channels (db w') = channels (db w) ∧
  filter (λ sp, sp_id sp = p) (scheduled_posts (db w'))
    = filter (λ sp, sp_id sp = p) (scheduled_posts (db w)) ∧
  ∃ calls, trace w' = (trace w ++ calls)%list
           ∧ Forall (λ c, for_post c ≠ Some p) calls.

(** The one-shot jobs the startup loop leaves in the job store. *)
Fixpoint arm (utcnow : nat → datetime) (i : nat) (posts : list (Z * datetime))
    (jobs : gmap Z datetime) : gmap Z datetime :=
  match posts with
  | [] => jobs
  | (post_id, scheduled_datetime) :: posts' =>
      if bool_decide (scheduled_datetime > utcnow i)
      then arm utcnow (S i) posts' (<[post_id := scheduled_datetime]> jobs)
      else arm utcnow (S i) posts' jobs
  end.

(** The world once the one-shot job of a post has left the job store. *)
Definition without_job (post_id : Z) (w : World) : World :=
  set_scheduler
    (set_post_jobs (delete post_id (post_jobs (scheduler w))) (scheduler w)) w.

(** ** Sample data for the examples *)

Definition sample_user : User :=
  mk_user 1 1001 (Some "ann") None 1 3 false None 0 0.
Definition sample_channel : Channel := mk_channel 1 1 "@news" "News" true 0.
Definition sample_channel_off : Channel :=
  mk_channel 1 1 "@news" "News" false 0.
Definition sample_post_1 : ScheduledPost :=
  mk_post 1 1 "@news" "hello" None 500 false 0 None.
Definition sample_post_2 : ScheduledPost :=
  mk_post 2 1 "@news" "world" (Some "photo-1") 400 false 0 None.
Definition idle : Scheduler := mk_scheduler false None ∅.

Definition sample_db : Database :=
  mk_db false [sample_user] [sample_channel] [sample_post_1; sample_post_2] 1 2.
Definition sample_db_off : Database :=
  mk_db false [sample_user] [sample_channel_off]
    [sample_post_1; sample_post_2] 1 2.

Definition sample_world : World := mk_world sample_db [] [] idle.
Definition sample_world_off : World := mk_world sample_db_off [] [] idle.

Definition sample_data : StateData :=
  mk_data (Some 1) (Some "@news") (Some "hello") None.

(** ** Further methods of [Database] *)

Definition same_binding (user_id : Z) (channel_id : string) (c : Channel)
  : Prop :=
  c_user_id c = user_id ∧ c_channel_id c = channel_id.

Global Instance same_binding_dec user_id channel_id c :
  Decision (same_binding user_id channel_id c).
Proof. unfold same_binding. apply _. Defined.

Definition with_channels (d : Database) (cs : list Channel) : Database :=
  mk_db (is_sqlite d) (users d) cs (scheduled_posts d) (users_seq d)
    (posts_seq d).

(** [DO UPDATE SET is_active = TRUE, channel_title = EXCLUDED.channel_title] *)
Definition reactivate (user_id : Z) (channel_id channel_title : string)
    (c : Channel) : Channel :=
  if bool_decide (same_binding user_id channel_id c)
  then mk_channel (c_id c) (c_user_id c) (c_channel_id c) channel_title true
         (c_created_at c)
  else c.

(** The statement of [add_channel] on the tables; [None] is the
    violation of the foreign key [channels.user_id REFERENCES users(id)].
    PostgreSQL: [INSERT ... ON CONFLICT (user_id, channel_id) DO UPDATE].
    SQLite: [INSERT OR REPLACE], which deletes the conflicting row and
    inserts a new one; foreign keys are not enforced there. [new_id] is the
    identifier the sequence of the table hands out. *)
Definition insert_channel (now : datetime) (new_id : Z) (user_id : Z)
    (channel_id channel_title : string) (d : Database) : option Database :=
  let row := mk_channel new_id user_id channel_id channel_title true now in
  if negb (is_sqlite d) then
    if bool_decide (Exists (same_binding user_id channel_id) (channels d))
    then Some (with_channels d
                 (reactivate user_id channel_id channel_title <$> channels d))
    else if bool_decide (Exists (λ u, u_id u = user_id) (users d))
         then Some (with_channels d (channels d ++ [row]))
         else None
  else
    Some (with_channels d
            (filter (λ c, ¬ same_binding user_id channel_id c) (channels d)
               ++ [row])).

Definition add_channel (call : wio) (now : datetime) (new_id : Z) (user_id : Z)
    (channel_id channel_title : string) : M bool :=
  try_except
    (exec write call
            (λ d, match insert_channel now new_id user_id channel_id
                          channel_title d with
                  | Some d' => (Some tt, d')
                  | None => (None, d)
                  end);
     ret true)
    (λ _, exec logger ERROR (ev_store_error "add_channel"); ret false).

Definition created_before (c1 c2 : Channel) : Prop :=
  c_created_at c1 ≤ c_created_at c2.

Global Instance created_before_dec c1 c2 : Decision (created_before c1 c2).
Proof. unfold created_before. apply _. Defined.

(** [SELECT * FROM channels WHERE user_id = $1 AND is_active = TRUE
     ORDER BY created_at] *)
Definition select_user_channels (user_id : Z) (d : Database) : list Channel :=
  merge_sort created_before
    (filter (λ c, c_user_id c = user_id ∧ c_is_active c = true) (channels d)).

Definition get_user_channels (call : io) (user_id : Z) : M (list Channel) :=
  try_except
    (driver call (λ d, (select_user_channels user_id d, d)))
    (λ _, exec logger ERROR (ev_store_error "get_user_channels"); ret []).

Definition scheduled_before (p1 p2 : ScheduledPost) : Prop :=
  sp_scheduled_time p1 ≤ sp_scheduled_time p2.

Global Instance scheduled_before_dec p1 p2 : Decision (scheduled_before p1 p2).
Proof. unfold scheduled_before. apply _. Defined.

(** The pending posts of a user for the current date of the database:
    [WHERE user_id = $1 AND DATE(scheduled_time) = CURRENT_DATE
     AND is_published = FALSE]. *)
Definition todays_pending (now : datetime) (user_id : Z) (d : Database)
  : list ScheduledPost :=
  filter (λ sp, sp_user_id sp = user_id
                ∧ date_of (sp_scheduled_time sp) = date_of now
                ∧ sp_is_published sp = false)
    (scheduled_posts d).

Definition get_todays_posts (call : io) (now : datetime) (user_id : Z)
  : M (list ScheduledPost) :=
  try_except
    (driver call
       (λ d, (merge_sort scheduled_before (todays_pending now user_id d), d)))
    (λ _, exec logger ERROR (ev_store_error "get_todays_posts"); ret []).

(** The dictionary returned by [get_user_stats]. *)
Record UserStats := mk_stats {
  st_user : User;
  st_channels_count : Z;
  st_posts_today : Z;
  st_channels_limit : Z;
  st_posts_limit : Z
}.

Definition count_active_channels (user_id : Z) (d : Database) : Z :=
  Z.of_nat
    (length (filter (λ c, c_user_id c = user_id ∧ c_is_active c = true)
               (channels d))).

Definition count_posts_today (now : datetime) (user_id : Z) (d : Database)
  : Z :=
  Z.of_nat (length (todays_pending now user_id d)).

(** [get_user_stats]: the user is fetched (or created) by
    [get_or_create_user], then the two counts are read. *)
Definition get_user_stats (user_call : wio) (stats_call : io)
    (now : datetime)
    (telegram_id : Z) : M (option UserStats) :=
  try_except
    (do user <- get_or_create_user user_call now telegram_id None None;
     match user with
     | None => ret None
     | Some user =>
         do counts <- driver stats_call
                        (λ d, ((count_active_channels (u_id user) d,
                                count_posts_today now (u_id user) d), d));
         ret (Some (mk_stats user counts.1 counts.2 (u_channels_limit user)
                      (u_posts_per_day_limit user)))
     end)
    (λ _, exec logger ERROR (ev_store_error "get_user_stats"); ret None).

(** ** The conversation that schedules a post *)

Inductive FsmState :=
  | waiting_for_channel_link
  | waiting_for_channel
  | waiting_for_text
  | waiting_for_time
  | waiting_for_message
  | waiting_for_user_id.

(** The state of the conversation with one user: the current state (if
    any) and the data collected so far. *)
Record Fsm := mk_fsm {
  fsm_state : option FsmState;
  fsm_data : StateData
}.

Inductive Button :=
  | channel_button (title : string) (callback_data : string)
  | cancel_button.

Inductive StartReply :=
  | start_error
  | start_limit_reached (posts_today posts_limit : Z)
  | start_no_channels
  | start_choose_channel (keyboard : list Button).

Definition select_channel_marker : string := "select_channel_".

(** [channel_title[:20]] *)
Definition short_title (s : string) : string := take_chars 20 s.

Definition channel_buttons (cs : list Channel) : list Button :=
  ((λ c, channel_button (short_title (c_channel_title c))
           (select_channel_marker +:+ c_channel_id c)) <$> cs)
  ++ [cancel_button].

(** The reply of [handle_schedule_post] and of [handle_add_channel] is
    what the handler passes to [message.answer], its last call on every
    path; the state returned is the state of the conversation at that
    call. *)
Definition handle_schedule_post (user_call : wio)
    (stats_call channels_call : io)
    (now : datetime) (telegram_id : Z) (fsm : Fsm) : M (StartReply * Fsm) :=
  do stats <- get_user_stats user_call stats_call now telegram_id;
  match stats with
  | None => ret (start_error, fsm)
  | Some stats =>
      if bool_decide (st_posts_today stats >= st_posts_limit stats)
      then ret (start_limit_reached (st_posts_today stats)
                  (st_posts_limit stats), fsm)
      else
        do channels <- get_user_channels channels_call (u_id (st_user stats));
        match channels with
        | [] => ret (start_no_channels, fsm)
        | _ :: _ =>
            ret (start_choose_channel (channel_buttons channels),
                 mk_fsm (Some waiting_for_channel)
                   (mk_data (Some (u_id (st_user stats)))
                      (sd_channel_id (fsm_data fsm))
                      (sd_message_text (fsm_data fsm))
                      (sd_photo_id (fsm_data fsm))))
        end
  end.

(** [str.replace(old, "")]: every occurrence of [old] is removed, scanning
    from the left; [skip] counts the characters of the occurrence being
    removed. *)
Fixpoint remove_all_from (skip : nat) (old s : string) : string :=
  match s with
  | EmptyString => EmptyString
  | String c s' =>
      match skip with
      | S k => remove_all_from k old s'
      | O =>
          if String.prefix old s && negb (bool_decide (old = EmptyString))
          then remove_all_from (String.length old - 1) old s'
          else String c (remove_all_from O old s')
      end
  end.

Definition remove_all (old s : string) : string := remove_all_from O old s.

Definition callback_select_channel (callback_data : string) (fsm : Fsm) : Fsm :=
  let channel_id := remove_all select_channel_marker callback_data in
  mk_fsm (Some waiting_for_text)
    (mk_data (sd_user_id (fsm_data fsm)) (Some channel_id)
       (sd_message_text (fsm_data fsm)) (sd_photo_id (fsm_data fsm))).

Inductive TextReply := reply_need_text | reply_ask_time.

(** [photo] lists the file identifiers of the sizes of the photo, the
    largest last. *)
Definition process_post_text (text caption : option string)
    (photo : list string) (fsm : Fsm) : TextReply * Fsm :=
  if negb (truthy_str text) && negb (truthy_str caption)
  then (reply_need_text, fsm)
  else
    let message_text :=
      if truthy_str text then text
      else if truthy_str caption then caption else Some EmptyString in
    let photo_id := last photo in
    (reply_ask_time,
     mk_fsm (Some waiting_for_time)
       (mk_data (sd_user_id (fsm_data fsm)) (sd_channel_id (fsm_data fsm))
          message_text photo_id)).

Inductive AddReply :=
  | add_error
  | add_limit_reached (channels_count channels_limit : Z)
  | add_send_link.

Definition handle_add_channel (user_call : wio) (stats_call : io)
    (now : datetime)
    (telegram_id : Z) (fsm : Fsm) : M (AddReply * Fsm) :=
  do stats <- get_user_stats user_call stats_call now telegram_id;
  match stats with
  | None => ret (add_error, fsm)
  | Some stats =>
      if bool_decide (st_channels_count stats >= st_channels_limit stats)
      then ret (add_limit_reached (st_channels_count stats)
                  (st_channels_limit stats), fsm)
      else ret (add_send_link,
                mk_fsm (Some waiting_for_channel_link) (fsm_data fsm))
  end.

(** [state.clear()]: no state and no data. *)
Definition cleared : Fsm := mk_fsm None (mk_data None None None None).

(** The conversation after [process_post_time] has answered: the handler
    clears the state when the data are incomplete, when the post could
    not be saved and when it has been scheduled; otherwise the user is
    asked again and the state stays. *)
Definition state_after_time (r : Reply) (fsm : Fsm) : Fsm :=
  match r with
  | reply_bad_data | reply_save_failed | reply_scheduled _ _ => cleared
  | reply_send_time | reply_too_soon | reply_too_far_ahead
  | reply_bad_format => fsm
  end.

(** ** Further observations *)

(** [old] occurs in [s] at some position. *)
Fixpoint occurs (old s : string) : bool :=
  String.prefix old s
  || match s with
     | EmptyString => false
     | String _ s' => occurs old s'
     end.

(** The content of a post: everything but the publication state. *)
Definition same_post (sp sp' : ScheduledPost) : Prop :=
  sp_id sp' = sp_id sp ∧ sp_user_id sp' = sp_user_id sp ∧
  sp_channel_id sp' = sp_channel_id sp ∧
  sp_message_text sp' = sp_message_text sp ∧
  sp_photo_id sp' = sp_photo_id sp ∧
  sp_scheduled_time sp' = sp_scheduled_time sp ∧
  sp_created_at sp' = sp_created_at sp.

(** [posts_kept d d']: every post of [d] is still in [d'], with the same
    content, and published if it was. *)
Definition posts_kept (d d' : Database) : Prop :=
  ∀ sp, sp ∈ scheduled_posts d →
    ∃ sp', sp' ∈ scheduled_posts d' ∧ same_post sp sp' ∧
           (sp_is_published sp = true → sp_is_published sp' = true).

(** Keys and sequences: the constraints of the schema, every identifier
    at least 1 and at most the value of its sequence. *)
Record store_ok (d : Database) : Prop := mk_store_ok {
  ok_keys : well_formed d;
  ok_users_seq : 0 ≤ users_seq d;
  ok_posts_seq : 0 ≤ posts_seq d;
  ok_user_ids : Forall (λ u, 1 ≤ u_id u ≤ users_seq d) (users d);
  ok_post_ids : Forall (λ sp, 1 ≤ sp_id sp ≤ posts_seq d) (scheduled_posts d)
}.

(** Two rows of the same account: identifiers, limits and subscription
    agree (user name and timestamps may differ). *)
Definition same_account (u u' : User) : Prop :=
  u_id u' = u_id u ∧ u_telegram_id u' = u_telegram_id u ∧
  u_channels_limit u' = u_channels_limit u ∧
  u_posts_per_day_limit u' = u_posts_per_day_limit u ∧
  u_subscribed u' = u_subscribed u ∧
  u_subscription_until u' = u_subscription_until u.

(** From [w] to [w'] the constraints are kept. *)
Definition keeps_store_ok (w w' : World) : Prop :=
  store_ok (db w) → store_ok (db w').

(** From [w] to [w'] the posts are kept. *)
Definition keeps_posts (w w' : World) : Prop := posts_kept (db w) (db w').

(** * Properties *)

(** ** Clock-time parsing and the creation window *)

Lemma digit_range c d : digit c = Some d → 0 ≤ d ≤ 9.
Proof.
  unfold digit. intros Hd. apply fmap_Some in Hd as (zero & Hh & ->).
  apply head_Some_elem_of, list_elem_of_filter in Hh as [Hin _]. lia.
Qed.

Lemma digit_ascii c : 48 ≤ c ≤ 57 → digit c = Some (c - 48).
Proof.
  intros Hc. unfold digit, digit_zeros.
  rewrite filter_cons_True by lia. done.
Qed.

Lemma parse_H_range s h rest : parse_H s = Some (h, rest) → 0 ≤ h ≤ 23.
Proof.
  unfold parse_H. intros Hp.
  destruct s as [|c1 rest0]; [done|].
  assert ((λ d1, (d1, rest0)) <$> digit c1 = Some (h, rest) → 0 ≤ h ≤ 23)
    as Hone.
  { intros (d1 & Hd & [= <- <-])%fmap_Some. apply digit_range in Hd. lia. }
  destruct rest0 as [|c2 rest']; [by apply Hone|].
  repeat case_bool_decide; [simplify_eq; lia| |by apply Hone].
  destruct (digit c2) as [d2|] eqn:Hd2; [|by apply Hone].
  apply digit_range in Hd2. simplify_eq. lia.
Qed.

Lemma parse_M_range s m rest : parse_M s = Some (m, rest) → 0 ≤ m ≤ 59.
Proof.
  unfold parse_M. intros Hp.
  destruct s as [|c1 rest0]; [done|].
  assert ((λ d1, (d1, rest0)) <$> digit c1 = Some (m, rest) → 0 ≤ m ≤ 59)
    as Hone.
  { intros (d1 & Hd & [= <- <-])%fmap_Some. apply digit_range in Hd. lia. }
  destruct rest0 as [|c2 rest']; [by apply Hone|].
  case_bool_decide; [|by apply Hone].
  destruct (digit c2) as [d2|] eqn:Hd2; [|by apply Hone].
  apply digit_range in Hd2. simplify_eq. lia.
Qed.

Lemma strptime_HM_range s t :
  strptime_HM s = Some t → 0 ≤ t_hour t ≤ 23 ∧ 0 ≤ t_minute t ≤ 59.
Proof.
  unfold strptime_HM. intros Hp.
  repeat (case_match; simplify_eq). simpl.
  eauto using parse_H_range, parse_M_range.
Qed.

Lemma date_of_combine d t :
  0 ≤ t_hour t ≤ 23 → 0 ≤ t_minute t ≤ 59 → date_of (combine d t) = d.
Proof.
  intros Hh Hm. unfold date_of, combine, hours, minutes, day, hour, minute, second.
  symmetry. apply (Z.div_unique_pos _ _ d
    (t_hour t * (60 * (60 * 1000000)) + t_minute t * (60 * 1000000))); lia.
Qed.

Lemma combine_before_midnight d t :
  0 ≤ t_hour t ≤ 23 → 0 ≤ t_minute t ≤ 59 → combine d t < (d + 1) * day.
Proof.
  intros Hh Hm. unfold combine, hours, minutes, day, hour, minute, second. lia.
Qed.

Lemma date_of_bounds t : date_of t * day ≤ t < (date_of t + 1) * day.
Proof.
  unfold date_of. assert (0 < day) by (unfold day, hour, minute, second; lia).
  pose proof (Z.mul_div_le t day). pose proof (Z.mul_succ_div_gt t day). lia.
Qed.


Example strptime_HM_examples :
  strptime_HM (strip (code_points " 14:30 ")) = Some (mk_time 14 30) ∧
  strptime_HM (strip (code_points "9:5")) = Some (mk_time 9 5) ∧
  strptime_HM (strip (code_points "23:59")) = Some (mk_time 23 59) ∧
  strptime_HM (strip (code_points "24:00")) = None ∧
  strptime_HM (strip (code_points "12:60")) = None ∧
  strptime_HM (strip (code_points "1:075")) = None ∧
  strptime_HM (strip (code_points "noon")) = None.
Proof. vm_compute. done. Qed.

Ltac unfold_handler :=
  unfold process_post_time, answer, add_scheduled_post, write, insert_post,
    add_post_job, try_except, bind, ret, raise, modify, logger.


(** What a run of the handler that schedules a post has done. *)
Lemma process_post_time_scheduled text t_today t_lead t_horizon data call
    now_db answer_call w post_id s :
  result (process_post_time text t_today t_lead t_horizon data call now_db
            answer_call) w
    = Returned (reply_scheduled post_id s) →
  ∃ text' post_time user_id channel_id message_text,
    text = Some text' ∧
    strptime_HM (strip (code_points text')) = Some post_time ∧
    s = combine (date_of t_today) post_time ∧
    check_post_time t_lead t_horizon s = TimeAccepted ∧
    post_id = posts_seq (db w) + 1 ∧
    scheduled_posts
      (db (run (process_post_time text t_today t_lead t_horizon data call
                  now_db answer_call) w))
      = (scheduled_posts (db w)
          ++ [mk_post post_id user_id channel_id message_text
                (sd_photo_id data) s false now_db None])%list ∧
    post_jobs
      (scheduler (run (process_post_time text t_today t_lead t_horizon data
                         call now_db answer_call) w)) !! post_id = Some s.
Proof.
  unfold result, run, process_post_time. intros Hr.
  destruct text as [text'|]; [|by destruct answer_call].
  case_bool_decide; [by destruct answer_call|].
  destruct (strptime_HM _) as [post_time|] eqn:Hparse;
    [|by destruct answer_call].
  destruct (check_post_time _ _ _) eqn:Hcheck; try by destruct answer_call.
  destruct (sd_user_id data) as [user_id|]; [|by destruct answer_call].
  destruct (sd_channel_id data) as [channel_id|]; [|by destruct answer_call].
  destruct (sd_message_text data) as [message_text|];
    [|by destruct answer_call].
  destruct (_ && _); [|by destruct answer_call].
  revert Hr. unfold_handler.
  destruct call as [[]|]; cbn; try by destruct answer_call.
  - destruct (_ && _); cbn; [by destruct answer_call|].
    destruct (truthy_int (posts_seq (db w) + 1));
      destruct answer_call; cbn; try done.
    intros [= <- <-].
    exists text', post_time, user_id, channel_id, message_text.
    repeat split; try done.
    apply lookup_insert_eq.
  - destruct (_ && _); cbn; by destruct answer_call.
Qed.

(** X1: the "too far ahead" answer is never given when the clock does not
    run backwards between the reading for [today] and the reading of the
    horizon check. *)
Lemma no_reply_too_far_ahead text t_today t_lead t_horizon data call now_db
    answer_call w :
  t_today ≤ t_horizon →
  result (process_post_time text t_today t_lead t_horizon data call now_db
            answer_call) w
    ≠ Returned reply_too_far_ahead.
Proof.
  unfold result, process_post_time. intros Hclock Hr.
  destruct text as [text'|]; [|by destruct answer_call].
  case_bool_decide; [by destruct answer_call|].
  destruct (strptime_HM _) as [post_time|] eqn:Hparse;
    [|by destruct answer_call].
  apply strptime_HM_range in Hparse as [Hh Hm].
  pose proof (combine_before_midnight (date_of t_today) _ Hh Hm) as Hlt.
  pose proof (date_of_bounds t_today) as Hd.
  destruct (check_post_time _ _ _) eqn:Hcheck.
  - destruct (sd_user_id data); [|by destruct answer_call].
    destruct (sd_channel_id data); [|by destruct answer_call].
    destruct (sd_message_text data); [|by destruct answer_call].
    destruct (_ && _); [|by destruct answer_call].
    revert Hr. unfold_handler.
    destruct call as [[]|]; cbn; try by destruct answer_call.
    + destruct (_ && _); cbn; [by destruct answer_call|].
      destruct (truthy_int _); by destruct answer_call.
    + destruct (_ && _); cbn; by destruct answer_call.
  - by destruct answer_call.
  - unfold check_post_time in Hcheck.
    repeat case_bool_decide; try done.
    unfold days in *. lia.
Qed.




(** The handler at 00:30 of day 10. *)
Example process_post_time_examples :
  let at_0030 := 10 * day + minutes 30 in
  result (process_post_time (Some "00:31") at_0030 at_0030 at_0030 sample_data
            Completes at_0030 Completes) sample_world
    = Returned reply_too_soon ∧
  result (process_post_time (Some "00:32") at_0030 at_0030 at_0030 sample_data
            Completes at_0030 Completes) sample_world
    = Returned (reply_scheduled 3 (at_0030 + minutes 2)) ∧
  result (process_post_time (Some "23:30") at_0030 at_0030 at_0030 sample_data
            Completes at_0030 Completes) sample_world
    = Returned (reply_scheduled 3 (at_0030 + hours 23)).
Proof. vm_compute. done. Qed.

(** C10: a post created through the time-entry handler is stored, and
    its job armed, with a scheduled time on the calendar date of the
    handler's reading of the UTC clock: only a clock time is parsed, and
    it is combined with today's date. *)
Theorem scheduled_on_creation_date text t_today t_lead t_horizon data call
    now_db answer_call w post_id s :
  result (process_post_time text t_today t_lead t_horizon data call now_db
            answer_call) w
    = Returned (reply_scheduled post_id s) →
  date_of s = date_of t_today ∧
  (∃ sp,
     scheduled_posts
       (db (run (process_post_time text t_today t_lead t_horizon data call
                   now_db answer_call) w))
       = (scheduled_posts (db w) ++ [sp])%list ∧
     sp_id sp = post_id ∧
     date_of (sp_scheduled_time sp) = date_of t_today) ∧
  (∃ run_date,
     post_jobs
       (scheduler (run (process_post_time text t_today t_lead t_horizon data
                          call now_db answer_call) w)) !! post_id
       = Some run_date ∧
     date_of run_date = date_of t_today).
Proof.
  intros Hr.
  apply process_post_time_scheduled in Hr
    as (text' & post_time & user_id & channel_id & message_text
        & -> & Hparse & -> & _ & -> & Hposts & Hjob).
  apply strptime_HM_range in Hparse as [Hh Hm].
  pose proof (date_of_combine (date_of t_today) post_time Hh Hm) as Hdate.
  split; [done|]. split.
  - eexists. split; [exact Hposts|]. split; [done|]. exact Hdate.
  - eexists. split; [exact Hjob|]. exact Hdate.
Qed.

Lemma scheduled_on_creation_date_witness :
  date_of (10 * day + hours 14 + minutes 30) = date_of (10 * day + hours 12) ∧
  (∃ sp,
     scheduled_posts
       (db (run (process_post_time (Some " 14:30 ") (10 * day + hours 12)
                   (10 * day + hours 12) (10 * day + hours 12) sample_data
                   Completes (10 * day + hours 12) Completes) sample_world))
       = (scheduled_posts (db sample_world) ++ [sp])%list ∧
     sp_id sp = 3 ∧
     date_of (sp_scheduled_time sp) = date_of (10 * day + hours 12)) ∧
  (∃ run_date,
     post_jobs
       (scheduler (run (process_post_time (Some " 14:30 ") (10 * day + hours 12)
                          (10 * day + hours 12) (10 * day + hours 12)
                          sample_data Completes (10 * day + hours 12)
                          Completes)
                     sample_world)) !! 3 = Some run_date ∧
     date_of run_date = date_of (10 * day + hours 12)).
Proof.
  apply (scheduled_on_creation_date (Some " 14:30 ") (10 * day + hours 12)
           (10 * day + hours 12) (10 * day + hours 12) sample_data Completes
           (10 * day + hours 12) Completes sample_world 3
           (10 * day + hours 14 + minutes 30)).
  vm_compute. reflexivity.
Defined.

(** ** The post store *)

Lemma mark_post_published_completes now post_id w :
  mark_post_published Completes now post_id w
    = (Returned true, set_db (update_published post_id now (db w)) w).
Proof. reflexivity. Qed.

Lemma mark_post_published_fails now post_id w :
  mark_post_published Fails now post_id w
    = (Returned false, add_log ERROR (ev_store_error "mark_post_published") w).
Proof. reflexivity. Qed.

Lemma set_published_twice post_id t1 t2 sp :
  set_published post_id t2 (set_published post_id t1 sp)
    = set_published post_id t2 sp.
Proof.
  unfold set_published. repeat (case_bool_decide; simpl in *); done.
Qed.

Lemma update_published_twice post_id t1 t2 d :
  update_published post_id t2 (update_published post_id t1 d)
    = update_published post_id t2 d.
Proof.
  unfold update_published, with_posts. simpl. f_equal.
  rewrite <- list_fmap_compose. apply list_fmap_ext.
  intros i sp _. apply set_published_twice.
Qed.

Lemma update_published_elem post_id now d sp :
  sp ∈ scheduled_posts (update_published post_id now d) →
  (sp_id sp = post_id ∧ sp_is_published sp = true
     ∧ sp_published_at sp = Some now)
  ∨ (sp_id sp ≠ post_id ∧ sp ∈ scheduled_posts d).
Proof.
  unfold update_published. simpl. intros (sp0 & -> & Hin)%list_elem_of_fmap.
  unfold set_published. case_bool_decide; simpl; auto.
Qed.

(** C3, as the code has it: two calls for the same identifier do not
    raise and both return True; the flag is true after each; the update
    carries no guard on the flag, so [published_at] is overwritten and
    ends as the time of the second call, exactly as after a single call
    at that time; rows of other posts are left as they were. *)
Theorem mark_post_published_twice (t1 t2 : datetime) (post_id : Z) (w : World) :
  let w1 := run (mark_post_published Completes t1 post_id) w in
  let w2 := run (mark_post_published Completes t2 post_id) w1 in
  result (mark_post_published Completes t1 post_id) w = Returned true ∧
  result (mark_post_published Completes t2 post_id) w1 = Returned true ∧
  db w2 = db (run (mark_post_published Completes t2 post_id) w) ∧
  (∀ sp, sp ∈ scheduled_posts (db w1) → sp_id sp = post_id →
         sp_is_published sp = true ∧ sp_published_at sp = Some t1) ∧
  (∀ sp, sp ∈ scheduled_posts (db w2) → sp_id sp = post_id →
         sp_is_published sp = true ∧ sp_published_at sp = Some t2) ∧
  (∀ sp, sp_id sp ≠ post_id →
         sp ∈ scheduled_posts (db w2) ↔ sp ∈ scheduled_posts (db w)).
Proof.
  unfold run, result. rewrite !mark_post_published_completes.
  cbn [fst snd db set_db]. rewrite update_published_twice.
  split; [done|]. split; [done|]. split; [done|].
  split; [|split].
  - intros sp Hin Hid.
    apply update_published_elem in Hin as [(_ & ? & ?)|[? _]]; done.
  - intros sp Hin Hid.
    apply update_published_elem in Hin as [(_ & ? & ?)|[? _]]; done.
  - intros sp Hid. split.
    + intros Hin. apply update_published_elem in Hin as [(? & _)|[_ ?]]; done.
    + intros Hin. unfold update_published. simpl.
      apply list_elem_of_fmap. exists sp. split; [|done].
      unfold set_published. by rewrite bool_decide_eq_false_2.
Qed.

(** C3, counterexample: the second call stamps the publication time
    again (200 replaces 100). *)
Lemma mark_post_published_restamps :
  let w1 := run (mark_post_published Completes 100 1) sample_world in
  let w2 := run (mark_post_published Completes 200 1) w1 in
  sp_published_at <$> find_post 1 (db w1) = Some (Some 100) ∧
  sp_published_at <$> find_post 1 (db w2) = Some (Some 200) ∧
  db w2 ≠ db w1.
Proof. vm_compute. repeat split; congruence. Qed.




(** ** Users and subscriptions *)

Lemma select_user_insert now telegram_id username full_name d :
  select_user telegram_id d = None →
  select_user telegram_id
    (insert_user now telegram_id username full_name d).2
    = Some (insert_user now telegram_id username full_name d).1.
Proof.
  unfold select_user, insert_user. simpl. intros Hnone.
  rewrite filter_app. destruct (filter _ (users d)) as [|u us] eqn:Hf; [|done].
  simpl. rewrite filter_cons_True; done.
Qed.

Lemma grant_fields telegram_id subscribed subscription_until now u :
  (u_telegram_id u = telegram_id →
     let u' := grant telegram_id subscribed subscription_until now u in
     u_subscribed u' = subscribed ∧
     u_subscription_until u' = Some subscription_until ∧
     u_channels_limit u' = TARIFF_CHANNELS_LIMIT ∧
     u_posts_per_day_limit u' = TARIFF_POSTS_PER_DAY ∧
     u_id u' = u_id u ∧ u_telegram_id u' = u_telegram_id u) ∧
  (u_telegram_id u ≠ telegram_id →
     grant telegram_id subscribed subscription_until now u = u).
Proof.
  unfold grant. split; intros; case_bool_decide; done.
Qed.

(** C9: a user row is created with the free-tier limits (1 channel,
    3 posts per day), unsubscribed and without expiry; granting a
    subscription rewrites, in one step of the store, the rows of that
    Telegram account with the flag, the expiry, the channel limit and the
    daily limit of the tier together, and when the store fails nothing is
    changed at all. *)
Theorem subscription_limits (call : io) (now now_local : datetime)
    (telegram_id : Z) (username full_name : option string) (days_ : Z)
    (w : World) :
  (match select_user telegram_id (db w) with
   | Some u =>
       result (get_or_create_user Completes now telegram_id username
                 full_name) w = Returned (Some u)
   | None =>
       ∃ u,
         result (get_or_create_user Completes now telegram_id username
                   full_name) w = Returned (Some u) ∧
         users (db (run (get_or_create_user Completes now telegram_id
                           username full_name) w))
           = (users (db w) ++ [u])%list ∧
         u_telegram_id u = telegram_id ∧
         u_channels_limit u = 1 ∧ u_posts_per_day_limit u = 3 ∧
         u_subscribed u = false ∧ u_subscription_until u = None
   end) ∧
  (let w' := run (update_user_subscription call now_local now telegram_id
                    true days_) w in
   match call with
   | Fails => db w' = db w
   | Completes =>
       users (db w')
         = grant telegram_id true (now_local + days days_) now <$> users (db w)
   end) ∧
  (∀ u,
     (u_telegram_id u = telegram_id →
        let u' := grant telegram_id true (now_local + days days_) now u in
        u_subscribed u' = true ∧
        u_subscription_until u' = Some (now_local + days days_) ∧
        u_channels_limit u' = 2 ∧ u_posts_per_day_limit u' = 8) ∧
     (u_telegram_id u ≠ telegram_id →
        grant telegram_id true (now_local + days days_) now u = u)).
Proof.
  split; [|split].
  - unfold result, run, get_or_create_user, try_except, write.
    destruct (select_user telegram_id (db w)) as [u|] eqn:Hsel.
    + destruct (is_sqlite (db w)); cbn -[select_user]; [done|].
      by destruct (_ && _).
    + pose proof (select_user_insert now telegram_id username full_name
                    (db w) Hsel) as Hins.
      destruct (is_sqlite (db w)); cbn -[select_user insert_user];
        destruct (insert_user _ _ _ _ _) as [u d'] eqn:Hi;
        cbn -[select_user] in *.
      * rewrite Hins. exists u. unfold insert_user in Hi. simplify_eq.
        repeat split.
      * exists u. unfold insert_user in Hi. simplify_eq. repeat split.
  - destruct call; done.
  - intros u. destruct (grant_fields telegram_id true
                          (now_local + days days_) now u) as [Hg Hn].
    split; [|done]. intros Hid. destruct (Hg Hid) as (?&?&?&?&_). done.
Qed.

(** ** The due-posts query *)

Global Instance earlier_trans : Transitive earlier.
Proof. unfold earlier. intros r1 r2 r3 ??. lia. Qed.

Global Instance earlier_total : Total earlier.
Proof. unfold earlier. intros r1 r2. lia. Qed.

Lemma elem_of_joined d sp u c :
  (sp, u, c) ∈ joined d ↔
    sp ∈ scheduled_posts d ∧ u ∈ users d ∧ c ∈ channels d ∧
    sp_user_id sp = u_id u ∧
    sp_channel_id sp = c_channel_id c ∧ c_user_id c = u_id u.
Proof.
  unfold joined, bindings_of. rewrite list_elem_of_bind. split.
  - intros (sp' & (u' & (c' & Hj & Hc)%list_elem_of_bind & Hu)%list_elem_of_bind
              & Hsp).
    apply list_elem_of_singleton in Hj. simplify_eq.
    apply list_elem_of_filter in Hu as [? ?].
    apply list_elem_of_filter in Hc as [[? ?] ?]. done.
  - intros (Hsp & Hu & Hc & ? & ? & ?). exists sp. split; [|done].
    apply list_elem_of_bind. exists u. split.
    + apply list_elem_of_bind. exists c. split.
      * by apply list_elem_of_singleton.
      * by apply list_elem_of_filter.
    + by apply list_elem_of_filter.
Qed.

Lemma elem_of_select_posts_to_publish now d r :
  r ∈ select_posts_to_publish now d ↔
    ∃ sp u c,
      sp ∈ scheduled_posts d ∧ u ∈ users d ∧ c ∈ channels d ∧
      sp_user_id sp = u_id u ∧
      sp_channel_id sp = c_channel_id c ∧ c_user_id c = u_id u ∧
      sp_is_published sp = false ∧
      sp_scheduled_time sp ≤ now + minutes 5 ∧
      c_is_active c = true ∧
      r = mk_row sp (u_telegram_id u) (c_channel_id c).
Proof.
  unfold select_posts_to_publish. rewrite merge_sort_Permutation.
  rewrite list_elem_of_fmap. split.
  - intros ([[sp u] c] & -> & Hin). apply list_elem_of_filter in Hin as [Hw Hj].
    simpl in Hw. destruct Hw as (? & ? & ?).
    apply elem_of_joined in Hj as (? & ? & ? & ? & ? & ?).
    exists sp, u, c. done.
  - intros (sp & u & c & ? & ? & ? & ? & ? & ? & ? & ? & ? & ->).
    exists (sp, u, c). split; [done|].
    apply list_elem_of_filter. split; [done|]. by apply elem_of_joined.
Qed.

Lemma filter_all_False {A} (P : A → Prop) `{!∀ x, Decision (P x)} (l : list A) :
  (∀ x, x ∈ l → ¬ P x) → filter P l = [].
Proof.
  induction l as [|x l IH]; [done|]. intros Hl.
  rewrite filter_cons_False by (apply Hl; left).
  apply IH. intros y Hy. apply Hl. by right.
Qed.

(** Under the key constraints a post joins with at most one user and one
    channel. *)
Lemma filter_key_unique {A K} `{EqDecision K} (key : A → K) (k : K)
    (l : list A) :
  NoDup (key <$> l) → (length (filter (λ x, k = key x) l) ≤ 1)%nat.
Proof.
  induction l as [|x l IH]; [simpl; lia|].
  rewrite fmap_cons, NoDup_cons. intros [Hx Hl].
  destruct (decide (k = key x)) as [->|Hne].
  - rewrite filter_cons_True by done.
    assert (filter (λ y, key x = key y) l = []) as ->; [|simpl; lia].
    apply filter_all_False. intros y Hy Heq. apply Hx.
    rewrite Heq. by apply list_elem_of_fmap_2.
  - rewrite filter_cons_False by done. by apply IH.
Qed.

Lemma joined_post_ids_sublist d :
  well_formed d →
  (λ j, sp_id j.1.1) <$> joined d `sublist_of` sp_id <$> scheduled_posts d.
Proof.
  intros [_ Hu _ Hc]. unfold joined.
  induction (scheduled_posts d) as [|sp ps IH]; [done|].
  rewrite bind_cons, fmap_app, fmap_cons. unfold bindings_of at 1.
  change (sp_id sp :: (sp_id <$> ps)) with ([sp_id sp] ++ (sp_id <$> ps))%list.
  apply sublist_app; [|exact IH].
  pose proof (filter_key_unique u_id (sp_user_id sp) (users d) Hu) as Hlen.
  destruct (filter _ (users d)) as [|u [|u' us]]; simpl in Hlen; [..|lia].
  { by apply sublist_nil_l. }
  rewrite bind_singleton.
  pose proof (filter_key_unique (λ c, (c_user_id c, c_channel_id c))
                (u_id u, sp_channel_id sp) (channels d) Hc) as Hlen'.
  assert (filter (λ c, sp_channel_id sp = c_channel_id c
                       ∧ c_user_id c = u_id u) (channels d)
          = filter (λ c, (u_id u, sp_channel_id sp)
                         = (c_user_id c, c_channel_id c)) (channels d)) as ->.
  { apply list_filter_iff. intros c. split.
    - intros [-> ->]. done.
    - intros [= -> ->]. done. }
  destruct (filter _ (channels d)) as [|c [|c' cs]]; simpl in Hlen'; [..|lia].
  - by apply sublist_nil_l.
  - done.
Qed.

Lemma select_posts_to_publish_NoDup now d :
  well_formed d →
  NoDup ((λ r, sp_id (pr_post r)) <$> select_posts_to_publish now d).
Proof.
  intros Hwf. unfold select_posts_to_publish.
  rewrite merge_sort_Permutation, <- list_fmap_compose.
  eapply sublist_NoDup; [apply (wf_post_ids d Hwf)|].
  etrans; [|apply joined_post_ids_sublist, Hwf].
  apply (fmap_sublist (λ j, sp_id j.1.1)), sublist_filter.
Qed.

(** C5: the due-posts query returns, for each unpublished post due by
    [now + 5 minutes] whose channel binding is active, its row (and no
    other row), ordered by due time, earliest first; under the key
    constraints of the schema no post is returned twice. The read leaves
    the store, the log and the transport as they were. *)
Theorem due_posts_exact (now : datetime) (w : World) :
  ∃ rows,
    get_posts_to_publish Completes now w = (Returned rows, w) ∧
    (∀ r, r ∈ rows ↔
       ∃ sp u c,
         sp ∈ scheduled_posts (db w) ∧ u ∈ users (db w) ∧
         c ∈ channels (db w) ∧
         sp_user_id sp = u_id u ∧
         sp_channel_id sp = c_channel_id c ∧ c_user_id c = u_id u ∧
         sp_is_published sp = false ∧
         sp_scheduled_time sp ≤ now + minutes 5 ∧
         c_is_active c = true ∧
         r = mk_row sp (u_telegram_id u) (c_channel_id c)) ∧
    StronglySorted
      (λ r1 r2, sp_scheduled_time (pr_post r1) ≤ sp_scheduled_time (pr_post r2))
      rows ∧
    (well_formed (db w) → NoDup ((λ r, sp_id (pr_post r)) <$> rows)).
Proof.
  exists (select_posts_to_publish now (db w)). split; [by destruct w|].
  split; [apply elem_of_select_posts_to_publish|]. split.
  - apply (StronglySorted_merge_sort earlier).
  - apply select_posts_to_publish_NoDup.
Qed.

(** ** The delivery executor *)

Lemma sample_db_well_formed : well_formed sample_db.
Proof.
  split; by apply (bool_decide_unpack _).
Qed.

(** Unfolds the monad on a concrete sequence of calls. *)
Ltac run_monad :=
  unfold mark_post_published, notify_user, get_posts_to_publish,
    try_except, bind, ret, raise, modify, gets, logger, driver, write,
    bot_call;
  cbn -[select_post_to_publish select_posts_to_publish excerpt
        update_published].

(** The four ways a run of the executor can go. *)
Lemma publish_load_fails e now post_id w :
  load_call e = Fails →
  publish_scheduled_post e now post_id w
    = (Returned tt, add_log ERROR (ev_publish_failed post_id StorageError) w).
Proof. intros He. unfold publish_scheduled_post. rewrite He. reflexivity. Qed.

Lemma publish_not_found e now post_id w :
  load_call e = Completes →
  select_post_to_publish post_id (db w) = None →
  publish_scheduled_post e now post_id w
    = (Returned tt, add_log WARNING (ev_post_missing_or_published post_id) w).
Proof.
  intros He Hsel. unfold publish_scheduled_post. rewrite He.
  run_monad. rewrite Hsel. by destruct w.
Qed.

Lemma publish_send_fails e now post_id w post :
  load_call e = Completes →
  select_post_to_publish post_id (db w) = Some post →
  send_call e = Fails →
  publish_scheduled_post e now post_id w
    = (Returned tt,
       add_log ERROR (ev_publish_failed post_id TransportError)
         (add_call (mk_call (Some post_id) (publish_request post) false) w)).
Proof.
  intros He Hsel Hs. unfold publish_scheduled_post. rewrite He, Hs.
  run_monad. rewrite Hsel. by destruct w.
Qed.

Lemma publish_sent e now post_id w post :
  load_call e = Completes →
  select_post_to_publish post_id (db w) = Some post →
  send_call e = Completes →
  publish_scheduled_post e now post_id w
    = (Returned tt,
       after_notice (notify_call e) (pr_telegram_id post)
         (PostPublishedNotice (excerpt (sp_message_text (pr_post post))))
         (after_mark (mark_call e) now post_id
            (add_log INFO
               (ev_published post_id (truthy_str (sp_photo_id (pr_post post))))
               (add_call (mk_call (Some post_id) (publish_request post) true)
                  w)))).
Proof.
  intros He Hsel Hs. unfold publish_scheduled_post, after_notice, after_mark.
  rewrite He, Hs. run_monad. rewrite Hsel.
  destruct w as [d tr lg sc].
  destruct (mark_call e) as [[]|]; run_monad;
    destruct (truthy_int (pr_telegram_id post)); run_monad; try done;
    destruct (notify_call e); reflexivity.
Qed.

(** No exception leaves the executor, whatever the calls do. *)
Lemma publish_never_raises e now post_id w :
  result (publish_scheduled_post e now post_id) w = Returned tt.
Proof.
  unfold result.
  destruct (load_call e) eqn:He; [|by rewrite publish_load_fails].
  destruct (select_post_to_publish post_id (db w)) as [post|] eqn:Hsel;
    [|by rewrite publish_not_found].
  destruct (send_call e) eqn:Hs.
  - by rewrite (publish_sent _ _ _ _ post).
  - by rewrite (publish_send_fails _ _ _ _ post).
Qed.

Lemma select_post_to_publish_Some post_id d post :
  select_post_to_publish post_id d = Some post →
  pr_post post ∈ scheduled_posts d ∧
  sp_id (pr_post post) = post_id ∧
  sp_is_published (pr_post post) = false.
Proof.
  unfold select_post_to_publish. intros Hh.
  apply head_Some_elem_of in Hh.
  apply list_elem_of_fmap in Hh as ([[sp u] c] & -> & Hin).
  apply list_elem_of_filter in Hin as [[Hid Hpub] Hj].
  apply elem_of_joined in Hj as (Hsp & _). done.
Qed.

(** Once marked, a post is no longer found by the executor's query. *)
Lemma select_post_to_publish_marked post_id now d :
  select_post_to_publish post_id (update_published post_id now d) = None.
Proof.
  unfold select_post_to_publish.
  rewrite filter_all_False; [done|].
  intros [[sp u] c] Hj [Hid Hpub]. simpl in *.
  apply elem_of_joined in Hj as (Hsp & _).
  apply update_published_elem in Hsp as [(_ & Hp & _)|[Hne _]]; congruence.
Qed.

Lemma deliveries_app post_id tr1 tr2 :
  deliveries post_id (tr1 ++ tr2)
    = (deliveries post_id tr1 ++ deliveries post_id tr2)%list.
Proof. apply filter_app. Qed.

(** C7: when the outbound send raises, the executor returns normally (as
    it does in every case), the store is left as it was, so the post is
    still unpublished and still found by the executor's query, nothing is
    delivered, and the only effect besides the failed call is one error
    record in the log. *)
Theorem send_failure_contained (e : PublishEnv) (now : datetime) (post_id : Z)
    (w : World) (post : PublishRow) :
  load_call e = Completes →
  select_post_to_publish post_id (db w) = Some post →
  send_call e = Fails →
  let w' := run (publish_scheduled_post e now post_id) w in
  result (publish_scheduled_post e now post_id) w = Returned tt ∧
  db w' = db w ∧
  select_post_to_publish post_id (db w') = Some post ∧
  sp_is_published (pr_post post) = false ∧
  trace w'
    = (trace w ++ [mk_call (Some post_id) (publish_request post) false])%list ∧
  deliveries post_id (trace w') = deliveries post_id (trace w) ∧
  log w'
    = (log w ++ [(ERROR, ev_publish_failed post_id TransportError)])%list ∧
  scheduler w' = scheduler w.
Proof.
  intros He Hsel Hs. unfold run, result.
  rewrite (publish_send_fails e now post_id w post He Hsel Hs).
  cbn [fst snd]. split; [done|]. split; [done|]. split; [done|].
  split; [by apply select_post_to_publish_Some in Hsel as (_ & _ & ?)|].
  split; [done|]. split; [|done].
  cbn [trace add_log add_call]. rewrite deliveries_app.
  unfold deliveries at 2. rewrite filter_cons_False, filter_nil, app_nil_r; [done|].
  simpl. intros (_ & ? & _). done.
Qed.

Lemma send_failure_contained_witness :
  let e := mk_env Completes Fails Completes Completes in
  let w' := run (publish_scheduled_post e 500 1) sample_world in
  result (publish_scheduled_post e 500 1) sample_world = Returned tt ∧
  db w' = db sample_world ∧
  select_post_to_publish 1 (db w')
    = Some (mk_row sample_post_1 1001 "@news") ∧
  sp_is_published (pr_post (mk_row sample_post_1 1001 "@news")) = false ∧
  trace w'
    = (trace sample_world
         ++ [mk_call (Some 1)
               (publish_request (mk_row sample_post_1 1001 "@news")) false])%list ∧
  deliveries 1 (trace w') = deliveries 1 (trace sample_world) ∧
  log w'
    = (log sample_world ++ [(ERROR, ev_publish_failed 1 TransportError)])%list ∧
  scheduler w' = scheduler sample_world.
Proof.
  apply (send_failure_contained (mk_env Completes Fails Completes Completes)
           500 1 sample_world (mk_row sample_post_1 1001 "@news"));
    reflexivity.
Defined.

Lemma publish_request_is_channel_send post :
  is_channel_send (publish_request post) = true.
Proof. unfold publish_request. repeat case_match; done. Qed.

(** A run whose load, send and mark complete, for a pending post. *)
Lemma publish_delivers e now post_id w post :
  select_post_to_publish post_id (db w) = Some post →
  load_call e = Completes →
  send_call e = Completes →
  mark_call e = Completes →
  let w1 := run (publish_scheduled_post e now post_id) w in
  db w1 = update_published post_id now (db w) ∧
  deliveries post_id (trace w1)
    = (deliveries post_id (trace w)
         ++ [mk_call (Some post_id) (publish_request post) true])%list ∧
  scheduler w1 = scheduler w.
Proof.
  intros Hsel Hl Hs Hm w1. unfold w1, run.
  rewrite (publish_sent e now post_id w post Hl Hsel Hs), Hm.
  unfold after_notice, after_mark.
  pose proof (publish_request_is_channel_send post) as Hch.
  destruct (truthy_int _); [destruct (notify_call e)|];
    cbn [snd db trace scheduler add_call add_log set_db];
    (split; [done|]); (split; [|done]);
    rewrite ?deliveries_app; unfold deliveries at 2 3;
    rewrite ?filter_cons_True, ?filter_nil by done;
    rewrite ?filter_cons_False, ?filter_nil, ?app_nil_r;
    try done; simpl; intros (? & _); done.
Qed.

(** C1, as the code has it: for a post that is pending (unpublished,
    with its user and channel rows), a run of the executor whose load,
    send and mark complete delivers the post once and marks it; a second
    run for the same identifier, started after the first has returned,
    finds nothing under the [is_published = FALSE] filter, whatever its
    calls do, and changes neither the store nor the transport trace: it
    only writes one log record. The flag of the post goes from false to
    true in the first run and stays true. *)
Theorem publish_twice_delivers_once (e1 e2 : PublishEnv) (t1 t2 : datetime)
    (post_id : Z) (w : World) (post : PublishRow) :
  select_post_to_publish post_id (db w) = Some post →
  load_call e1 = Completes →
  send_call e1 = Completes →
  mark_call e1 = Completes →
  let w1 := run (publish_scheduled_post e1 t1 post_id) w in
  let w2 := run (publish_scheduled_post e2 t2 post_id) w1 in
  deliveries post_id (trace w1)
    = (deliveries post_id (trace w)
         ++ [mk_call (Some post_id) (publish_request post) true])%list ∧
  db w1 = update_published post_id t1 (db w) ∧
  sp_is_published (pr_post post) = false ∧
  (∀ sp, sp ∈ scheduled_posts (db w1) → sp_id sp = post_id →
         sp_is_published sp = true ∧ sp_published_at sp = Some t1) ∧
  select_post_to_publish post_id (db w1) = None ∧
  result (publish_scheduled_post e2 t2 post_id) w1 = Returned tt ∧
  db w2 = db w1 ∧
  trace w2 = trace w1 ∧
  deliveries post_id (trace w2)
    = (deliveries post_id (trace w)
         ++ [mk_call (Some post_id) (publish_request post) true])%list ∧
  scheduler w2 = scheduler w1 ∧
  log w2
    = (log w1
         ++ [match load_call e2 with
             | Completes => (WARNING, ev_post_missing_or_published post_id)
             | Fails => (ERROR, ev_publish_failed post_id StorageError)
             end])%list.
Proof.
  intros Hsel Hl Hs Hm w1 w2.
  destruct (publish_delivers e1 t1 post_id w post Hsel Hl Hs Hm)
    as (Hdb & Hdel & _). fold w1 in Hdb, Hdel.
  assert (select_post_to_publish post_id (db w1) = None) as Hnone.
  { rewrite Hdb. apply select_post_to_publish_marked. }
  assert (w2 = add_log (match load_call e2 with
                        | Completes => WARNING
                        | Fails => ERROR
                        end)
                 (match load_call e2 with
                  | Completes => ev_post_missing_or_published post_id
                  | Fails => ev_publish_failed post_id StorageError
                  end) w1) as Hw2.
  { unfold w2, run. destruct (load_call e2) eqn:Hl2.
    - by rewrite publish_not_found.
    - by rewrite publish_load_fails. }
  split; [done|]. split; [done|].
  split; [by apply select_post_to_publish_Some in Hsel as (_ & _ & ?)|].
  split.
  { intros sp Hin Hid. rewrite Hdb in Hin.
    apply update_published_elem in Hin as [(_ & ? & ?)|[? _]]; done. }
  split; [done|]. split; [apply publish_never_raises|].
  rewrite Hw2. split; [done|]. split; [done|]. split; [done|].
  split; [done|]. by destruct (load_call e2).
Qed.

Lemma publish_twice_delivers_once_witness :
  let e2 := mk_env Completes Completes Completes Completes in
  let row := mk_row sample_post_1 1001 "@news" in
  let w1 := run (publish_scheduled_post no_faults 500 1) sample_world in
  let w2 := run (publish_scheduled_post e2 560 1) w1 in
  deliveries 1 (trace w1)
    = (deliveries 1 (trace sample_world)
         ++ [mk_call (Some 1) (publish_request row) true])%list ∧
  db w1 = update_published 1 500 (db sample_world) ∧
  sp_is_published (pr_post row) = false ∧
  (∀ sp, sp ∈ scheduled_posts (db w1) → sp_id sp = 1 →
         sp_is_published sp = true ∧ sp_published_at sp = Some 500) ∧
  select_post_to_publish 1 (db w1) = None ∧
  result (publish_scheduled_post e2 560 1) w1 = Returned tt ∧
  db w2 = db w1 ∧
  trace w2 = trace w1 ∧
  deliveries 1 (trace w2)
    = (deliveries 1 (trace sample_world)
         ++ [mk_call (Some 1) (publish_request row) true])%list ∧
  scheduler w2 = scheduler w1 ∧
  log w2
    = (log w1
         ++ [match load_call e2 with
             | Completes => (WARNING, ev_post_missing_or_published 1)
             | Fails => (ERROR, ev_publish_failed 1 StorageError)
             end])%list.
Proof.
  apply (publish_twice_delivers_once no_faults
           (mk_env Completes Completes Completes Completes) 500 560 1
           sample_world (mk_row sample_post_1 1001 "@news"));
    reflexivity.
Defined.

(** C1, counterexample: the completion of the mark in the first run is
    needed. When the update fails, [mark_post_published] logs and returns
    False, the executor does not look at the value, the post stays
    unpublished and a second run sends it again: two sends for one
    post. *)
Lemma publish_twice_after_failed_mark :
  let e1 := mk_env Completes Completes Fails Completes in
  let w1 := run (publish_scheduled_post e1 500 1) sample_world in
  let w2 := run (publish_scheduled_post no_faults 560 1) w1 in
  sp_is_published <$> find_post 1 (db w1) = Some false ∧
  deliveries 1 (trace w2)
    = [mk_call (Some 1) (send_message "@news" "hello") true;
       mk_call (Some 1) (send_message "@news" "hello") true].
Proof. vm_compute. done. Qed.

(** ** What a run of the executor leaves alone *)

Lemma bind_returned {A B} (m : M A) (k : A → M B) (w : World) (a : A) :
  result m w = Returned a → bind m k w = k a (run m w).
Proof.
  unfold result, run, bind. destruct (m w) as [[a'|exn] w']; simpl; congruence.
Qed.

Lemma others_untouched_refl p w : others_untouched p w w.
Proof.
  repeat split. exists []. by rewrite app_nil_r.
Qed.

Lemma others_untouched_trans p w1 w2 w3 :
  others_untouched p w1 w2 → others_untouched p w2 w3 →
  others_untouched p w1 w3.
Proof.
  intros (Hu & Hc & Hp & calls & Ht & Hf)
         (Hu' & Hc' & Hp' & calls' & Ht' & Hf').
  repeat split; try congruence.
  exists (calls ++ calls')%list. split.
  - by rewrite Ht', Ht, app_assoc.
  - by apply Forall_app.
Qed.

Lemma filter_set_published_other p post_id now (ps : list ScheduledPost) :
  p ≠ post_id →
  filter (λ sp, sp_id sp = p) (set_published post_id now <$> ps)
    = filter (λ sp, sp_id sp = p) ps.
Proof.
  intros Hne. induction ps as [|sp ps IH]; [done|].
  rewrite fmap_cons. unfold set_published at 1. case_bool_decide as Hid.
  - rewrite !filter_cons_False by (simpl; congruence). exact IH.
  - destruct (decide (sp_id sp = p)).
    + rewrite !filter_cons_True by done. by rewrite IH.
    + rewrite !filter_cons_False by done. exact IH.
Qed.

Lemma others_untouched_add_log p l e w : others_untouched p w (add_log l e w).
Proof. repeat split. exists []. by rewrite app_nil_r. Qed.

Lemma others_untouched_after_mark p call now post_id w :
  p ≠ post_id → others_untouched p w (after_mark call now post_id w).
Proof.
  intros Hne. destruct call as [[]|]; [|apply others_untouched_add_log|];
    repeat split; simpl;
    try (by apply filter_set_published_other);
    exists []; by rewrite app_nil_r.
Qed.

Lemma others_untouched_add_call p c w :
  for_post c ≠ Some p → others_untouched p w (add_call c w).
Proof.
  intros Hc. repeat split. exists [c]. split; [done|]. by constructor.
Qed.

Lemma others_untouched_after_notice p call telegram_id n w :
  others_untouched p w (after_notice call telegram_id n w).
Proof.
  unfold after_notice. destruct (truthy_int _); [|apply others_untouched_refl].
  destruct call.
  - by apply others_untouched_add_call.
  - eapply others_untouched_trans; [|apply others_untouched_add_log].
    by apply others_untouched_add_call.
Qed.

(** A run of the executor for one post leaves every other post alone. *)
Lemma publish_others_untouched p e now post_id w :
  p ≠ post_id →
  others_untouched p w (run (publish_scheduled_post e now post_id) w).
Proof.
  intros Hne. unfold run.
  assert (Some post_id ≠ Some p) as Hne' by congruence.
  destruct (load_call e) eqn:He;
    [|rewrite publish_load_fails by done; apply others_untouched_add_log].
  destruct (select_post_to_publish post_id (db w)) as [post|] eqn:Hsel;
    [|rewrite publish_not_found by done; apply others_untouched_add_log].
  destruct (send_call e) eqn:Hs.
  - rewrite (publish_sent _ _ _ _ post) by done. cbn [snd].
    eapply others_untouched_trans; [|apply others_untouched_after_notice].
    eapply others_untouched_trans; [|by apply others_untouched_after_mark].
    eapply others_untouched_trans; [|apply others_untouched_add_log].
    by apply others_untouched_add_call.
  - rewrite (publish_send_fails _ _ _ _ post) by done. cbn [snd].
    eapply others_untouched_trans; [|apply others_untouched_add_log].
    by apply others_untouched_add_call.
Qed.

(** The loop of the sweep, over rows none of which is post [p]. *)
Lemma sweep_loop_others_untouched p envs clock rows i w :
  Forall (λ r, sp_id (pr_post r) ≠ p) rows →
  let body := λ (i : nat) (post : PublishRow),
    if truthy_int (sp_id (pr_post post))
    then publish_scheduled_post (envs i) (clock i) (sp_id (pr_post post))
    else ret tt in
  result (for_each body i rows) w = Returned tt ∧
  others_untouched p w (run (for_each body i rows) w).
Proof.
  intros Hrows body. revert i w.
  induction Hrows as [|r rows Hr _ IH]; intros i w.
  { split; [done|apply others_untouched_refl]. }
  assert (result (body i r) w = Returned tt
          ∧ others_untouched p w (run (body i r) w)) as [Hres Hun].
  { unfold body. destruct (truthy_int _).
    - split; [apply publish_never_raises|].
      apply publish_others_untouched. congruence.
    - split; [done|apply others_untouched_refl]. }
  cbn [for_each]. unfold result, run in *.
  rewrite (bind_returned _ _ _ tt Hres).
  destruct (IH (S i) (run (body i r) w)) as [Hres' Hun'].
  split; [exact Hres'|].
  eapply others_untouched_trans; [exact Hun|exact Hun'].
Qed.

Lemma try_except_returned {A} (m : M A) (h : Exn → M A) (w : World) (a : A) :
  result m w = Returned a → try_except m h w = m w.
Proof.
  unfold result, try_except. destruct (m w) as [[a'|exn] w']; simpl; congruence.
Qed.

Lemma NoDup_fmap_eq {A K} (key : A → K) (l : list A) (x y : A) :
  NoDup (key <$> l) → x ∈ l → y ∈ l → key x = key y → x = y.
Proof.
  induction l as [|z l IH]; [by intros _ ?%elem_of_nil|].
  rewrite fmap_cons, NoDup_cons. intros [Hz Hl] Hx Hy Hk.
  apply elem_of_cons in Hx as [->|Hx];
    apply elem_of_cons in Hy as [->|Hy]; auto.
  - exfalso. apply Hz. rewrite Hk. by apply list_elem_of_fmap_2.
  - exfalso. apply Hz. rewrite <- Hk. by apply list_elem_of_fmap_2.
Qed.

(** A post all of whose channel bindings are inactive is not among the
    rows of the due-posts query. *)
Lemma inactive_not_due now d sp :
  well_formed d →
  sp ∈ scheduled_posts d →
  (∀ c, c ∈ channels d → c_channel_id c = sp_channel_id sp →
        c_user_id c = sp_user_id sp → c_is_active c = false) →
  Forall (λ r, sp_id (pr_post r) ≠ sp_id sp) (select_posts_to_publish now d).
Proof.
  intros Hwf Hsp Hoff. apply Forall_forall. intros r Hr Hid.
  apply elem_of_select_posts_to_publish in Hr
    as (sp' & u & c & Hsp' & Hu & Hc & Hju & Hjc & Hcu & _ & _ & Hact & ->).
  simpl in Hid.
  assert (sp' = sp) as ->
    by (eapply (NoDup_fmap_eq sp_id); eauto using wf_post_ids).
  rewrite (Hoff c) in Hact; [done|done|congruence|congruence].
Qed.

(** C2, as the code has it: a post whose channel is deactivated is not
    returned by the due-posts query, so a sweep does not hand it to the
    executor: no call is made for it, its row stays as it was (still
    unpublished), and the channels are unchanged, so the same holds for
    every later sweep. *)
Theorem inactive_channel_post_not_swept (query_call : io) (now : datetime)
    (envs : nat → PublishEnv) (clock : nat → datetime) (w : World)
    (sp : ScheduledPost) :
  well_formed (db w) →
  sp ∈ scheduled_posts (db w) →
  (∀ c, c ∈ channels (db w) → c_channel_id c = sp_channel_id sp →
        c_user_id c = sp_user_id sp → c_is_active c = false) →
  let w' := run (check_pending_posts query_call now envs clock) w in
  (∀ r, r ∈ select_posts_to_publish now (db w) →
        sp_id (pr_post r) ≠ sp_id sp) ∧
  result (check_pending_posts query_call now envs clock) w = Returned tt ∧
  sp ∈ scheduled_posts (db w') ∧
  channels (db w') = channels (db w) ∧
  filter (λ c, for_post c = Some (sp_id sp)) (trace w')
    = filter (λ c, for_post c = Some (sp_id sp)) (trace w).
Proof.
  intros Hwf Hsp Hoff w'.
  pose proof (inactive_not_due now (db w) sp Hwf Hsp Hoff) as Hrows.
  split; [by apply Forall_forall|].
  assert (∃ rows w0,
            get_posts_to_publish query_call now w = (Returned rows, w0)
            ∧ Forall (λ r, sp_id (pr_post r) ≠ sp_id sp) rows
            ∧ others_untouched (sp_id sp) w w0) as (rows & w0 & Hq & Hf & Hun).
  { destruct query_call.
    - exists (select_posts_to_publish now (db w)), w.
      split; [by destruct w|]. split; [done|apply others_untouched_refl].
    - eexists [], _. split; [reflexivity|]. split; [done|].
      apply others_untouched_add_log. }
  destruct (sweep_loop_others_untouched (sp_id sp) envs clock rows 0 w0 Hf)
    as [Hres Hun'].
  assert (check_pending_posts query_call now envs clock w
          = (Returned tt,
             run (for_each
                    (λ i post,
                       if truthy_int (sp_id (pr_post post))
                       then publish_scheduled_post (envs i) (clock i)
                              (sp_id (pr_post post))
                       else ret tt) 0%nat rows) w0)) as Hsweep.
  { unfold check_pending_posts.
    assert (result (get_posts_to_publish query_call now) w = Returned rows)
      as Hq1 by (unfold result; by rewrite Hq).
    assert (run (get_posts_to_publish query_call now) w = w0)
      as Hq2 by (unfold run; by rewrite Hq).
    erewrite try_except_returned.
    - rewrite (bind_returned _ _ _ rows Hq1), Hq2.
      unfold result, run in *. destruct (for_each _ _ _ _) as [o w1].
      simpl in *. by subst.
    - unfold result. rewrite (bind_returned _ _ _ rows Hq1), Hq2. exact Hres. }
  unfold w', run, result. rewrite Hsweep. cbn [fst snd].
  destruct (others_untouched_trans _ _ _ _ Hun Hun')
    as (_ & Hch & Hposts & calls & Htr & Hcalls).
  split; [done|]. split; [|split; [done|]].
  - assert (sp ∈ filter (λ x, sp_id x = sp_id sp) (scheduled_posts (db w)))
      as Hin by (by apply list_elem_of_filter).
    rewrite <- Hposts in Hin. by apply list_elem_of_filter in Hin as [_ ?].
  - rewrite Htr, filter_app, (filter_all_False _ calls), app_nil_r; [done|].
    intros c Hc. by eapply Forall_forall in Hcalls.
Qed.

Lemma inactive_channel_post_not_swept_witness :
  let w' := run (check_pending_posts Completes 500 (λ _, no_faults)
                   (λ _, 500)) sample_world_off in
  (∀ r, r ∈ select_posts_to_publish 500 (db sample_world_off) →
        sp_id (pr_post r) ≠ sp_id sample_post_1) ∧
  result (check_pending_posts Completes 500 (λ _, no_faults) (λ _, 500))
    sample_world_off = Returned tt ∧
  sample_post_1 ∈ scheduled_posts (db w') ∧
  channels (db w') = channels (db sample_world_off) ∧
  filter (λ c, for_post c = Some (sp_id sample_post_1)) (trace w')
    = filter (λ c, for_post c = Some (sp_id sample_post_1))
        (trace sample_world_off).
Proof.
  apply (inactive_channel_post_not_swept Completes 500 (λ _, no_faults)
           (λ _, 500) sample_world_off sample_post_1).
  - split; by apply (bool_decide_unpack _).
  - apply list_elem_of_here.
  - intros c Hc _ _. cbn in Hc. apply list_elem_of_singleton in Hc. by subst.
Defined.

(** C2, counterexample: the channel of post 1 is inactive, yet a run of
    the executor for it (its one-shot job firing) sends the post to the
    channel and marks it published; and the due-posts query does not
    return it, before or after. *)
Lemma inactive_channel_post_is_published :
  let w' := run (publish_scheduled_post no_faults 500 1) sample_world_off in
  c_is_active <$> channels (db sample_world_off) = [false] ∧
  result (get_posts_to_publish Completes 500) sample_world_off = Returned [] ∧
  deliveries 1 (trace w')
    = [mk_call (Some 1) (send_message "@news" "hello") true] ∧
  sp_is_published <$> find_post 1 (db w') = Some true ∧
  result (get_posts_to_publish Completes 500) w' = Returned [].
Proof. vm_compute. done. Qed.

(** ** One-shot jobs firing *)

Lemma bindings_of_post us cs sp j : j ∈ bindings_of us cs sp → j.1.1 = sp.
Proof.
  unfold bindings_of.
  intros (u & (c & Hj & _)%list_elem_of_bind & _)%list_elem_of_bind.
  apply list_elem_of_singleton in Hj. by subst.
Qed.

Lemma filter_joined_by_id us cs post_id (ps : list ScheduledPost) :
  filter (λ j, sp_id j.1.1 = post_id ∧ sp_is_published j.1.1 = false)
    (ps ≫= bindings_of us cs)
  = filter (λ sp, sp_id sp = post_id) ps ≫=
      (λ sp, filter (λ j, sp_id j.1.1 = post_id ∧ sp_is_published j.1.1 = false)
               (bindings_of us cs sp)).
Proof.
  induction ps as [|sp ps IH]; [done|].
  rewrite bind_cons, filter_app, IH.
  destruct (decide (sp_id sp = post_id)) as [Hid|Hid].
  - by rewrite filter_cons_True, bind_cons by done.
  - rewrite filter_cons_False by done.
    rewrite filter_all_False; [done|].
    intros j Hj [Hj' _]. apply bindings_of_post in Hj. congruence.
Qed.

(** The executor's query for a post reads the users, the channels and
    the rows of that post only. *)
Lemma select_post_to_publish_congr post_id d d' :
  users d' = users d →
  channels d' = channels d →
  filter (λ sp, sp_id sp = post_id) (scheduled_posts d')
    = filter (λ sp, sp_id sp = post_id) (scheduled_posts d) →
  select_post_to_publish post_id d' = select_post_to_publish post_id d.
Proof.
  intros Hu Hc Hp. unfold select_post_to_publish, joined.
  by rewrite !filter_joined_by_id, Hu, Hc, Hp.
Qed.

Lemma others_untouched_select p w w' :
  others_untouched p w w' →
  select_post_to_publish p (db w') = select_post_to_publish p (db w).
Proof.
  intros (Hu & Hc & Hp & _). by apply select_post_to_publish_congr.
Qed.

Lemma others_untouched_deliveries p w w' :
  others_untouched p w w' →
  deliveries p (trace w') = deliveries p (trace w).
Proof.
  intros (_ & _ & _ & calls & -> & Hcalls).
  rewrite deliveries_app. unfold deliveries at 2.
  rewrite (filter_all_False _ calls), app_nil_r; [done|].
  intros c Hc (Hp & _). by eapply Forall_forall in Hcalls.
Qed.

Lemma others_untouched_rows p w w' sp :
  others_untouched p w w' →
  sp_id sp = p →
  sp ∈ scheduled_posts (db w') ↔ sp ∈ scheduled_posts (db w).
Proof.
  intros (_ & _ & Hp & _) Hid.
  assert (∀ l : list ScheduledPost,
            sp ∈ l ↔ sp ∈ filter (λ x, sp_id x = p) l) as Hf.
  { intros l. rewrite list_elem_of_filter. tauto. }
  by rewrite (Hf (scheduled_posts (db w'))), (Hf (scheduled_posts (db w))), Hp.
Qed.


Lemma fire_post_job_unfold e post_id now w :
  fire_post_job e post_id now w
    = publish_scheduled_post e now post_id (without_job post_id w).
Proof. reflexivity. Qed.



(** ** The startup rebuild *)


Lemma load_jobs_spec utcnow (posts : list (Z * datetime)) :
  ∀ i n w,
    ∃ n',
      load_jobs utcnow i posts n w
        = (Returned n',
           set_scheduler
             (set_post_jobs (arm utcnow i posts (post_jobs (scheduler w)))
                (scheduler w)) w).
Proof.
  induction posts as [|[id0 t0] posts IH]; intros i n w.
  { exists n. destruct w as [d tr lg [r c js]]. reflexivity. }
  cbn [load_jobs arm]. case_bool_decide.
  - unfold bind, add_post_job, modify.
    destruct (IH (S i) (S n)
                (set_scheduler
                   (set_post_jobs (<[id0:=t0]> (post_jobs (scheduler w)))
                      (scheduler w)) w)) as [n' Hn].
    exists n'. rewrite Hn. by destruct w as [d tr lg [r c js]].
  - apply IH.
Qed.


Lemma select_unpublished_future_NoDup now d :
  well_formed d → NoDup (select_unpublished_future now d).*1.
Proof.
  intros Hwf. unfold select_unpublished_future.
  rewrite <- list_fmap_compose.
  eapply sublist_NoDup; [apply (wf_post_ids d Hwf)|].
  apply (fmap_sublist sp_id), sublist_filter.
Qed.

(** What startup does when the store can be connected to and read. *)
Lemma on_startup_spec e admin_id now_db utcnow w :
  connect_call e = Completes →
  rebuild_call e = Completes →
  let w' := run (on_startup e admin_id now_db utcnow) w in
  result (on_startup e admin_id now_db utcnow) w = Returned tt ∧
  db w' = db w ∧
  scheduler w'
    = mk_scheduler true (Some (minutes 1))
        (arm utcnow 0 (select_unpublished_future now_db (db w))
           (post_jobs (scheduler w))) ∧
  ∃ calls, trace w' = (trace w ++ calls)%list
           ∧ Forall (λ c, for_post c = None) calls.
Proof.
  intros Hc Hr. unfold run, result, on_startup. rewrite Hc, Hr.
  unfold db_connect, scheduler_start, add_check_posts_job, get_all_users.
  unfold try_except, bind, ret, raise, modify, gets, logger, driver, bot_call.
  cbn -[select_unpublished_future merge_sort minutes].
  match goal with
  | |- context [load_jobs utcnow 0 ?ps 0 ?w0] =>
      destruct (load_jobs_spec utcnow ps 0 0 w0) as [n Hn]; rewrite Hn
  end.
  destruct w as [d tr lg [r c js]].
  cbn -[select_unpublished_future merge_sort minutes].
  destruct (users_call e), (admin_call e);
    cbn -[select_unpublished_future merge_sort minutes];
    (split; [done|]); (split; [done|]); (split; [done|]).
  - eexists [_]. split; [done|]. by repeat constructor.
  - eexists [_]. split; [done|]. by repeat constructor.
  - eexists [_]. split; [done|]. by repeat constructor.
  - eexists [_]. split; [done|]. by repeat constructor.
Qed.




Lemma advance_clock_unfold envs db_clock t w :
  running (scheduler w) = true →
  advance_clock envs db_clock t w
    = for_each (λ _ j, fire_post_job (envs j.1) j.1 (db_clock j.1)) 0%nat
        (due_post_jobs t (scheduler w)) w.
Proof. intros Hrun. unfold advance_clock, bind, gets. by rewrite Hrun. Qed.

Lemma advance_clock_stopped envs db_clock t w :
  running (scheduler w) = false →
  advance_clock envs db_clock t w = (Returned tt, w).
Proof. intros Hrun. unfold advance_clock, bind, gets. by rewrite Hrun. Qed.



Lemma mark_post_published_twice_witness :
  result (mark_post_published Completes 200 1)
    (run (mark_post_published Completes 100 1) sample_world) = Returned true ∧
  db (run (mark_post_published Completes 200 1)
        (run (mark_post_published Completes 100 1) sample_world))
    = db (run (mark_post_published Completes 200 1) sample_world).
Proof.
  destruct (mark_post_published_twice 100 200 1 sample_world)
    as (_ & Hret & Hdb & _).
  split; assumption.
Defined.

Lemma due_posts_exact_witness :
  ∃ rows,
    get_posts_to_publish Completes 100 sample_world
      = (Returned rows, sample_world) ∧
    NoDup ((λ r, sp_id (pr_post r)) <$> rows).
Proof.
  destruct (due_posts_exact 100 sample_world) as (rows & Hq & _ & _ & Hnd).
  exists rows. split; [exact Hq|]. apply Hnd, sample_db_well_formed.
Defined.

Lemma subscription_limits_witness :
  ∃ u,
    result (get_or_create_user Completes 50 2002 None None) sample_world
      = Returned (Some u) ∧
    u_channels_limit u = 1 ∧ u_posts_per_day_limit u = 3 ∧
    u_subscribed u = false ∧ u_subscription_until u = None.
Proof.
  destruct (subscription_limits Completes 50 50 2002 None None 30 sample_world)
    as [Hnew _].
  change (select_user 2002 (db sample_world)) with (@None User) in Hnew.
  destruct Hnew as (u & Hres & _ & _ & ? & ? & ? & ?).
  exists u. repeat split; assumption.
Defined.

(** * Further properties *)

(** ** The time-entry handler *)

Lemma no_reply_too_far_ahead_witness :
  result (process_post_time (Some "23:59") (10 * day + minutes 30)
            (10 * day + minutes 30) (10 * day + minutes 30) sample_data
            Completes (10 * day + minutes 30) Completes) sample_world
    ≠ Returned reply_too_far_ahead.
Proof.
  apply (no_reply_too_far_ahead (Some "23:59") (10 * day + minutes 30)
           (10 * day + minutes 30) (10 * day + minutes 30) sample_data
           Completes (10 * day + minutes 30) Completes sample_world).
  reflexivity.
Defined.

Lemma combine_whole_minute d t : (combine d t `mod` minute = 0)%Z.
Proof.
  unfold combine, hours, minutes, day, hour.
  replace (d * (24 * (60 * minute)) + t_hour t * (60 * minute)
           + t_minute t * minute)
    with ((d * 1440 + t_hour t * 60 + t_minute t) * minute) by lia.
  apply Z.mod_mul. unfold minute, second. lia.
Qed.

(** X2: a post the handler accepts is scheduled on a whole minute of the
    current UTC day, at least two minutes after the clock reading of the
    lead check and at 23:59 at the latest; so nothing is accepted once
    that reading is past 23:57. *)
Theorem scheduled_later_today text t_today t_lead t_horizon data call
    now_db answer_call w post_id s :
  result (process_post_time text t_today t_lead t_horizon data call now_db
            answer_call) w
    = Returned (reply_scheduled post_id s) →
  t_lead + minutes 2 ≤ s ∧
  s ≤ date_of t_today * day + hours 23 + minutes 59 ∧
  date_of t_today * day ≤ s ∧
  s `mod` minute = 0 ∧
  t_lead ≤ date_of t_today * day + hours 23 + minutes 57.
Proof.
  intros Hr.
  apply process_post_time_scheduled in Hr
    as (text' & post_time & _ & _ & _ & _ & Hparse & -> & Hcheck & _).
  apply strptime_HM_range in Hparse as [Hh Hm].
  unfold check_post_time in Hcheck. repeat case_bool_decide; try done.
  pose proof (combine_whole_minute (date_of t_today) post_time).
  unfold combine, hours, minutes, day, hour, minute, second in *.
  repeat split; try done; lia.
Qed.

Lemma scheduled_later_today_witness :
  let now := 10 * day + hours 12 in
  now + minutes 2 ≤ 10 * day + hours 14 + minutes 30 ∧
  10 * day + hours 14 + minutes 30 ≤ date_of now * day + hours 23 + minutes 59 ∧
  date_of now * day ≤ 10 * day + hours 14 + minutes 30 ∧
  (10 * day + hours 14 + minutes 30) `mod` minute = 0 ∧
  now ≤ date_of now * day + hours 23 + minutes 57.
Proof.
  apply (scheduled_later_today (Some " 14:30 ") (10 * day + hours 12)
           (10 * day + hours 12) (10 * day + hours 12) sample_data Completes
           (10 * day + hours 12) Completes sample_world 3).
  vm_compute. reflexivity.
Defined.

(** X3: the handler arms the one-shot job of a post only together with
    its row. Whatever the calls do, a run leaves users, channels and the
    transport trace as they were, and either the job store is unchanged
    and the answer is not "scheduled", or the save has completed: the
    row is appended with the next value of the sequence, unpublished, the
    job of that identifier is set to its scheduled time, and the answer
    is "scheduled", unless the sending of the answer fails, in which
    case the handler raises with the post stored and the job armed.
    In the first case the table of posts is unchanged too, except when
    an await after the INSERT fails (the commit on SQLite): the row is
    then in the table without a job. *)
Theorem process_post_time_job_with_row text t_today t_lead t_horizon data
    call now_db answer_call w :
  0 ≤ posts_seq (db w) →
  let m :=
    process_post_time text t_today t_lead t_horizon data call now_db
      answer_call in
  let w' := run m w in
  let post_id := posts_seq (db w) + 1 in
  users (db w') = users (db w) ∧ channels (db w') = channels (db w) ∧
  trace w' = trace w ∧
  ((scheduler w' = scheduler w ∧
    (∀ id s, result m w ≠ Returned (reply_scheduled id s)) ∧
    (scheduled_posts (db w') = scheduled_posts (db w)
     ∨ call = FailsAfterWrite ∧
       ∃ sp, scheduled_posts (db w') = (scheduled_posts (db w) ++ [sp])%list
             ∧ sp_id sp = post_id))
   ∨ (∃ s sp,
        call = Completes ∧
        scheduled_posts (db w') = (scheduled_posts (db w) ++ [sp])%list ∧
        sp_id sp = post_id ∧ sp_scheduled_time sp = s ∧
        sp_is_published sp = false ∧
        post_jobs (scheduler w')
          = <[post_id := s]> (post_jobs (scheduler w)) ∧
        result m w
          = match answer_call with
            | Completes => Returned (reply_scheduled post_id s)
            | Fails => Raised TransportError
            end)).
Proof.
  intros Hseq m w' post_id. unfold w', m, result, run, process_post_time.
  assert (∀ r : Reply,
            (∀ id s, r ≠ reply_scheduled id s) →
            let w1 := (answer answer_call r w).2 in
            users (db w1) = users (db w) ∧ channels (db w1) = channels (db w) ∧
            trace w1 = trace w ∧
            ((scheduler w1 = scheduler w ∧
              (∀ id s, (answer answer_call r w).1
                         ≠ Returned (reply_scheduled id s)) ∧
              (scheduled_posts (db w1) = scheduled_posts (db w)
               ∨ call = FailsAfterWrite ∧
                 ∃ sp, scheduled_posts (db w1)
                         = (scheduled_posts (db w) ++ [sp])%list
                       ∧ sp_id sp = post_id))
             ∨ (∃ s sp,
                  call = Completes ∧
                  scheduled_posts (db w1)
                    = (scheduled_posts (db w) ++ [sp])%list ∧
                  sp_id sp = post_id ∧ sp_scheduled_time sp = s ∧
                  sp_is_published sp = false ∧
                  post_jobs (scheduler w1)
                    = <[post_id := s]> (post_jobs (scheduler w)) ∧
                  (answer answer_call r w).1
                    = match answer_call with
                      | Completes => Returned (reply_scheduled post_id s)
                      | Fails => Raised TransportError
                      end))) as Hplain.
  { intros r Hr. unfold answer.
    destruct answer_call; cbn; (split; [done|]); (split; [done|]);
      (split; [done|]); left; (split; [done|]); (split; [|by left]);
      intros id s; [intros [= ->]; by eapply Hr|done]. }
  destruct text as [text'|]; [|by apply Hplain].
  case_bool_decide; [by apply Hplain|].
  destruct (strptime_HM _) as [post_time|]; [|by apply Hplain].
  destruct (check_post_time _ _ _); [|by apply Hplain|by apply Hplain].
  destruct (sd_user_id data) as [user_id|]; [|by apply Hplain].
  destruct (sd_channel_id data) as [channel_id|]; [|by apply Hplain].
  destruct (sd_message_text data) as [message_text|]; [|by apply Hplain].
  destruct (_ && _); [|by apply Hplain].
  clear Hplain.
  assert (truthy_int (posts_seq (db w) + 1) = true) as Htruthy.
  { unfold truthy_int. rewrite bool_decide_eq_false_2; [done|lia]. }
  unfold_handler.
  destruct call as [[]|]; cbn.
  - destruct (_ && _); cbn.
    + destruct answer_call; cbn; (split; [done|]); (split; [done|]);
        (split; [done|]); left; (split; [done|]); (split; [done|]);
        by left.
    + rewrite Htruthy.
      destruct answer_call; cbn; (split; [done|]); (split; [done|]);
        (split; [done|]); right; eexists _, _; (split; [done|]);
        (split; [done|]); done.
  - destruct answer_call; cbn; (split; [done|]); (split; [done|]);
      (split; [done|]); left; (split; [done|]); (split; [done|]);
      by left.
  - destruct (_ && _); cbn;
      destruct answer_call; cbn; (split; [done|]); (split; [done|]);
      (split; [done|]); left; (split; [done|]); (split; [done|]);
      try (by left); right; (split; [done|]); by eexists.
Qed.

Lemma process_post_time_job_with_row_witness :
  let m :=
    process_post_time (Some "23:30") (10 * day + hours 12)
      (10 * day + hours 12) (10 * day + hours 12) sample_data Completes
      (10 * day + hours 12) Fails in
  result m sample_world = Raised TransportError ∧
  post_jobs (scheduler (run m sample_world)) !! 3
    = Some (10 * day + hours 23 + minutes 30).
Proof.
  destruct (process_post_time_job_with_row (Some "23:30")
              (10 * day + hours 12) (10 * day + hours 12)
              (10 * day + hours 12) sample_data Completes
              (10 * day + hours 12) Fails sample_world)
    as (_ & _ & _ & [(Hsame & _)|(s & sp & _ & Hrow & _ & Htime & _ & Hjobs
                                  & Hres)]).
  { vm_compute. discriminate. }
  { exfalso. vm_compute in Hsame. discriminate. }
  split; [exact Hres|].
  rewrite Hjobs, lookup_insert_eq. f_equal.
  rewrite <- Htime. vm_compute in Hrow.
  by injection Hrow as <-.
Defined.

(** ** The delivery executor: what one run touches *)

Lemma select_post_to_publish_binding post_id d post :
  select_post_to_publish post_id d = Some post →
  ∃ sp u c,
    post = select_row (sp, u, c) ∧ (sp, u, c) ∈ joined d ∧
    sp_id sp = post_id ∧ sp_is_published sp = false.
Proof.
  unfold select_post_to_publish. intros Hh.
  apply head_Some_elem_of in Hh.
  apply list_elem_of_fmap in Hh as ([[sp u] c] & -> & Hin).
  apply list_elem_of_filter in Hin as [[Hid Hpub] Hj].
  by exists sp, u, c.
Qed.

(** The four ways of a run, as one case distinction. *)
Lemma publish_cases e now post_id w :
  publish_scheduled_post e now post_id w
    = (Returned tt, add_log ERROR (ev_publish_failed post_id StorageError) w)
  ∨ (select_post_to_publish post_id (db w) = None ∧
     publish_scheduled_post e now post_id w
       = (Returned tt,
          add_log WARNING (ev_post_missing_or_published post_id) w))
  ∨ (∃ post,
       select_post_to_publish post_id (db w) = Some post ∧
       publish_scheduled_post e now post_id w
         = (Returned tt,
            add_log ERROR (ev_publish_failed post_id TransportError)
              (add_call (mk_call (Some post_id) (publish_request post) false)
                 w)))
  ∨ (∃ post,
       select_post_to_publish post_id (db w) = Some post ∧
       publish_scheduled_post e now post_id w
         = (Returned tt,
            after_notice (notify_call e) (pr_telegram_id post)
              (PostPublishedNotice (excerpt (sp_message_text (pr_post post))))
              (after_mark (mark_call e) now post_id
                 (add_log INFO
                    (ev_published post_id
                       (truthy_str (sp_photo_id (pr_post post))))
                    (add_call
                       (mk_call (Some post_id) (publish_request post) true)
                       w))))).
Proof.
  destruct (load_call e) eqn:He; [|left; by apply publish_load_fails].
  destruct (select_post_to_publish post_id (db w)) as [post|] eqn:Hsel;
    [|right; left; split; [done|by apply publish_not_found]].
  destruct (send_call e) eqn:Hs.
  - right; right; right. exists post. split; [done|by apply publish_sent].
  - right; right; left. exists post. split; [done|by apply publish_send_fails].
Qed.

Lemma after_notice_db call telegram_id n w :
  db (after_notice call telegram_id n w) = db w
  ∧ scheduler (after_notice call telegram_id n w) = scheduler w.
Proof.
  unfold after_notice. destruct (truthy_int _); [destruct call|]; done.
Qed.

Lemma after_mark_db call now post_id w :
  (db (after_mark call now post_id w) = db w
   ∨ db (after_mark call now post_id w) = update_published post_id now (db w))
  ∧ scheduler (after_mark call now post_id w) = scheduler w.
Proof. destruct call as [[]|]; simpl; auto. Qed.

(** The store after a run: as before, or with the post marked. *)
Lemma publish_db e now post_id w :
  (db (run (publish_scheduled_post e now post_id) w) = db w
   ∨ db (run (publish_scheduled_post e now post_id) w)
     = update_published post_id now (db w))
  ∧ scheduler (run (publish_scheduled_post e now post_id) w) = scheduler w.
Proof.
  unfold run.
  destruct (publish_cases e now post_id w)
    as [->|[[_ ->]|[(post & _ & ->)|(post & _ & ->)]]]; cbn [snd]; auto.
  set (w1 := add_log INFO
               (ev_published post_id (truthy_str (sp_photo_id (pr_post post))))
               (add_call (mk_call (Some post_id) (publish_request post) true)
                  w)).
  destruct (after_notice_db (notify_call e) (pr_telegram_id post)
              (PostPublishedNotice (excerpt (sp_message_text (pr_post post))))
              (after_mark (mark_call e) now post_id w1)) as [-> ->].
  destruct (after_mark_db (mark_call e) now post_id w1) as [Hdb ->].
  split; [exact Hdb|done].
Qed.

(** X4: a run of the executor, whatever its calls do, returns normally
    and touches nothing but the rows of its own post: users, channels,
    sequences and the job store are as before, no row is added or
    removed, and the rows of every other post are unchanged. *)
Theorem publish_touches_own_post_only (e : PublishEnv) (now : datetime)
    (post_id : Z) (w : World) :
  let w' := run (publish_scheduled_post e now post_id) w in
  result (publish_scheduled_post e now post_id) w = Returned tt ∧
  users (db w') = users (db w) ∧
  channels (db w') = channels (db w) ∧
  users_seq (db w') = users_seq (db w) ∧
  posts_seq (db w') = posts_seq (db w) ∧
  scheduler w' = scheduler w ∧
  sp_id <$> scheduled_posts (db w') = sp_id <$> scheduled_posts (db w) ∧
  (∀ sp, sp_id sp ≠ post_id →
         sp ∈ scheduled_posts (db w') ↔ sp ∈ scheduled_posts (db w)).
Proof.
  intros w'. split; [apply publish_never_raises|].
  destruct (publish_db e now post_id w) as [Hdb Hs]. fold w' in Hdb, Hs.
  destruct Hdb as [->| ->]; [by repeat split|].
  repeat split; try done.
  - unfold update_published. simpl. rewrite <- list_fmap_compose.
    apply list_fmap_ext. intros i sp _. simpl.
    unfold set_published. by case_bool_decide.
  - intros Hin. apply update_published_elem in Hin as [(? & _)|[_ ?]]; done.
  - intros Hin. unfold update_published. simpl.
    apply list_elem_of_fmap. exists sp. split; [|done].
    unfold set_published. by rewrite bool_decide_eq_false_2.
Qed.

Lemma publish_request_target post :
  match publish_request post with
  | send_photo chat _ caption =>
      chat = pr_channel_ident post ∧ caption = sp_message_text (pr_post post)
  | send_message chat text =>
      chat = pr_channel_ident post ∧ text = sp_message_text (pr_post post)
  | send_notice _ _ => False
  end.
Proof.
  unfold publish_request.
  destruct (sp_photo_id (pr_post post)) as [photo_id|];
    [destruct (truthy_str (Some photo_id))|]; done.
Qed.

(** X5: whatever its calls do, a run of the executor makes at most one
    send to a channel, and only for a post that is unpublished at that
    moment; the message carries the text of the post and goes to the
    channel named by the post, which is a channel bound to the owner of
    the post (the active flag of the channel is not consulted). *)
Theorem publish_sends_to_owner_channel (e : PublishEnv) (now : datetime)
    (post_id : Z) (w : World) :
  ∃ calls,
    trace (run (publish_scheduled_post e now post_id) w)
      = (trace w ++ calls)%list ∧
    (length (filter (λ c, is_channel_send (request c) = true) calls) ≤ 1)%nat ∧
    ∀ c, c ∈ calls → is_channel_send (request c) = true →
      for_post c = Some post_id ∧
      ∃ sp u ch,
        sp ∈ scheduled_posts (db w) ∧ u ∈ users (db w) ∧
        ch ∈ channels (db w) ∧
        sp_id sp = post_id ∧ sp_is_published sp = false ∧
        sp_user_id sp = u_id u ∧ c_user_id ch = u_id u ∧
        c_channel_id ch = sp_channel_id sp ∧
        match request c with
        | send_photo chat _ caption =>
            chat = sp_channel_id sp ∧ caption = sp_message_text sp
        | send_message chat text =>
            chat = sp_channel_id sp ∧ text = sp_message_text sp
        | send_notice _ _ => False
        end.
Proof.
  assert (∀ post ok,
            select_post_to_publish post_id (db w) = Some post →
            ∀ c, c = mk_call (Some post_id) (publish_request post) ok →
              for_post c = Some post_id ∧
              ∃ sp u ch,
                sp ∈ scheduled_posts (db w) ∧ u ∈ users (db w) ∧
                ch ∈ channels (db w) ∧
                sp_id sp = post_id ∧ sp_is_published sp = false ∧
                sp_user_id sp = u_id u ∧ c_user_id ch = u_id u ∧
                c_channel_id ch = sp_channel_id sp ∧
                match request c with
                | send_photo chat _ caption =>
                    chat = sp_channel_id sp ∧ caption = sp_message_text sp
                | send_message chat text =>
                    chat = sp_channel_id sp ∧ text = sp_message_text sp
                | send_notice _ _ => False
                end) as Hsend.
  { intros post ok Hsel c ->. split; [done|].
    apply select_post_to_publish_binding in Hsel
      as (sp & u & ch & -> & Hj & Hid & Hpub).
    apply elem_of_joined in Hj as (? & ? & ? & ? & ? & ?).
    exists sp, u, ch. repeat split; try done.
    pose proof (publish_request_target (select_row (sp, u, ch))) as Ht.
    simpl in *. destruct (publish_request _); [| |done];
      destruct Ht as [-> ->]; done. }
  unfold run.
  destruct (publish_cases e now post_id w)
    as [->|[[_ ->]|[(post & Hsel & ->)|(post & Hsel & ->)]]]; cbn [snd].
  - exists []. rewrite app_nil_r. split; [done|]. split; [simpl; lia|].
    by intros c ?%elem_of_nil.
  - exists []. rewrite app_nil_r. split; [done|]. split; [simpl; lia|].
    by intros c ?%elem_of_nil.
  - eexists [_]. split; [done|]. split.
    { rewrite filter_cons. case_decide; simpl; lia. }
    intros c ->%list_elem_of_singleton _. by eapply Hsend.
  - pose proof (publish_request_is_channel_send post) as Hch.
    unfold after_notice, after_mark.
    destruct (truthy_int _); [destruct (notify_call e)|];
      destruct (mark_call e) as [[]|]; cbn [trace add_call add_log set_db].
    all: try (eexists [_; _]; split; [by rewrite <- app_assoc|]; split;
              [rewrite filter_cons_True, filter_cons_False by done; simpl; lia|];
              intros c [->| ->%list_elem_of_singleton]%elem_of_cons;
              [intros _; by eapply Hsend|done]).
    all: eexists [_]; split; [done|]; split;
           [rewrite filter_cons_True by done; simpl; lia|];
           intros c ->%list_elem_of_singleton _; by eapply Hsend.
Qed.

(** ** The catch-up sweep delivers what is due *)

Lemma head_filter_unique {A K} `{EqDecision K} (key : A → K) (P : A → Prop)
    `{!∀ x, Decision (P x)} (l : list A) (x : A) :
  NoDup (key <$> l) → x ∈ l → P x →
  head (filter (λ y, key y = key x ∧ P y) l) = Some x.
Proof.
  induction l as [|z l IH]; [by intros _ ?%elem_of_nil|].
  rewrite fmap_cons, NoDup_cons. intros [Hz Hl] Hx HP.
  apply elem_of_cons in Hx as [->|Hx].
  - by rewrite filter_cons_True.
  - rewrite filter_cons_False; [by apply IH|].
    intros [Hk _]. apply Hz. rewrite Hk. by apply list_elem_of_fmap_2.
Qed.

(** Under the key constraints the executor's query finds, for a pending
    post, the row of its one binding. *)
Lemma select_post_to_publish_joined d sp u c :
  well_formed d → (sp, u, c) ∈ joined d → sp_is_published sp = false →
  select_post_to_publish (sp_id sp) d = Some (select_row (sp, u, c)).
Proof.
  intros Hwf Hj Hpub. unfold select_post_to_publish.
  assert (NoDup ((λ j : ScheduledPost * User * Channel, sp_id j.1.1)
                   <$> joined d)) as Hnd.
  { eapply sublist_NoDup; [apply (wf_post_ids d Hwf)|].
    by apply joined_post_ids_sublist. }
  pose proof (head_filter_unique
                (λ j : ScheduledPost * User * Channel, sp_id j.1.1)
                (λ j, sp_is_published j.1.1 = false) (joined d) (sp, u, c)
                Hnd Hj Hpub) as Hh.
  simpl in Hh. destruct (filter _ (joined d)) as [|j js]; [done|].
  simpl in *. by simplify_eq.
Qed.

Lemma check_pending_posts_completes now envs clock w :
  check_pending_posts Completes now envs clock w
    = (Returned tt,
       run (for_each
              (λ i post,
                 if truthy_int (sp_id (pr_post post))
                 then publish_scheduled_post (envs i) (clock i)
                        (sp_id (pr_post post))
                 else ret tt) 0%nat (select_posts_to_publish now (db w))) w).
Proof.
  unfold check_pending_posts.
  assert (get_posts_to_publish Completes now w
          = (Returned (select_posts_to_publish now (db w)), w)) as Hq
    by (by destruct w).
  set (body := λ (i : nat) (post : PublishRow),
                 if truthy_int (sp_id (pr_post post))
                 then publish_scheduled_post (envs i) (clock i)
                        (sp_id (pr_post post))
                 else ret tt).
  assert (∀ rows i w0, result (for_each body i rows) w0 = Returned tt) as Hres.
  { induction rows as [|r rows IH]; intros i w0; [done|].
    cbn [for_each]. unfold result.
    rewrite (bind_returned _ _ _ tt); [apply IH|].
    unfold body. destruct (truthy_int _); [apply publish_never_raises|done]. }
  unfold try_except, bind. rewrite Hq.
  specialize (Hres (select_posts_to_publish now (db w)) 0%nat w).
  unfold result, run in *.
  destruct (for_each body 0 (select_posts_to_publish now (db w)) w) as [o w1].
  simpl in *. by subst.
Qed.

Lemma sweep_loop_delivers envs clock (rows : list PublishRow) :
  (∀ k, load_call (envs k) = Completes ∧ send_call (envs k) = Completes
        ∧ mark_call (envs k) = Completes) →
  NoDup ((λ r, sp_id (pr_post r)) <$> rows) →
  let body := λ (i : nat) (post : PublishRow),
    if truthy_int (sp_id (pr_post post))
    then publish_scheduled_post (envs i) (clock i) (sp_id (pr_post post))
    else ret tt in
  ∀ i w,
    (∀ r, r ∈ rows →
          sp_id (pr_post r) ≠ 0
          ∧ is_Some (select_post_to_publish (sp_id (pr_post r)) (db w))) →
    ∀ k r, rows !! k = Some r →
      ∃ post,
        select_post_to_publish (sp_id (pr_post r)) (db w) = Some post ∧
        deliveries (sp_id (pr_post r)) (trace (run (for_each body i rows) w))
          = (deliveries (sp_id (pr_post r)) (trace w)
               ++ [mk_call (Some (sp_id (pr_post r))) (publish_request post)
                     true])%list ∧
        ∀ sp, sp ∈ scheduled_posts (db (run (for_each body i rows) w)) →
              sp_id sp = sp_id (pr_post r) →
              sp_is_published sp = true
              ∧ sp_published_at sp = Some (clock (i + k)%nat).
Proof.
  intros Henv Hnd body. induction rows as [|r0 rows IH]; intros i w Hsel k r Hk.
  { done. }
  rewrite fmap_cons, NoDup_cons in Hnd. destruct Hnd as [Hr0 Hnd].
  destruct (Hsel r0) as [Hnz [post0 Hpost0]]; [left|].
  assert (truthy_int (sp_id (pr_post r0)) = true) as Htruthy.
  { unfold truthy_int. by rewrite bool_decide_eq_false_2. }
  set (w1 := run (publish_scheduled_post (envs i) (clock i)
                    (sp_id (pr_post r0))) w).
  assert (run (for_each body i (r0 :: rows)) w
          = run (for_each body (S i) rows) w1) as Hrun.
  { cbn [for_each]. unfold run at 1.
    rewrite (bind_returned _ _ _ tt).
    - unfold body at 2. by rewrite Htruthy.
    - unfold body. rewrite Htruthy. apply publish_never_raises. }
  rewrite Hrun.
  destruct (Henv i) as (Hl & Hs & Hm).
  destruct k as [|k]; simpl in Hk.
  - simplify_eq.
    exists post0. split; [done|].
    destruct (publish_delivers (envs i) (clock i) (sp_id (pr_post r)) w post0
                Hpost0 Hl Hs Hm) as (Hdb & Hdel & _).
    fold w1 in Hdb, Hdel.
    destruct (sweep_loop_others_untouched (sp_id (pr_post r)) envs clock rows
                (S i) w1) as [_ Hun].
    { apply Forall_forall. intros r' Hr' Heq. apply Hr0. rewrite <- Heq.
      by apply (list_elem_of_fmap_2 (λ r, sp_id (pr_post r))). }
    fold body in Hun. split.
    + by rewrite (others_untouched_deliveries _ _ _ Hun), Hdel.
    + intros sp Hin Hid.
      apply (others_untouched_rows _ _ _ sp Hun Hid) in Hin.
      rewrite Hdb in Hin. rewrite Nat.add_0_r.
      apply update_published_elem in Hin as [(_ & ? & ?)|[? _]]; done.
  - assert (∀ r', r' ∈ rows → sp_id (pr_post r') ≠ sp_id (pr_post r0)) as Hne.
    { intros r' Hr' Heq. apply Hr0. rewrite <- Heq.
      by apply (list_elem_of_fmap_2 (λ r, sp_id (pr_post r))). }
    assert (∀ r', r' ∈ rows →
              others_untouched (sp_id (pr_post r')) w w1) as Hun.
    { intros r' Hr'. apply publish_others_untouched. by apply Hne. }
    assert (r ∈ rows) as Hr by (by eapply list_elem_of_lookup_2).
    destruct (IH Hnd (S i) w1) with (k := k) (r := r)
      as (post & Hpost & Hdel & Hrows); [|done|].
    { intros r' Hr'. destruct (Hsel r') as [? ?]; [by right|].
      split; [done|]. by rewrite (others_untouched_select _ _ _ (Hun r' Hr')). }
    exists post.
    split; [by rewrite <- (others_untouched_select _ _ _ (Hun r Hr))|].
    split.
    + by rewrite Hdel, (others_untouched_deliveries _ _ _ (Hun r Hr)).
    + replace (i + S k)%nat with (S i + k)%nat by lia. exact Hrows.
Qed.

Lemma sample_db_store_ok : store_ok sample_db.
Proof.
  split; [exact sample_db_well_formed|done|done|..];
    repeat constructor; simpl; lia.
Qed.

(** X6: a sweep whose query completes, and whose runs of the executor
    complete their load, send and mark, delivers every post the
    due-posts query returns exactly once and marks it published at the
    database time of its run, in the order of the query; this includes
    posts whose due time is still up to five minutes ahead. None of them
    is returned by any later scan. *)
Theorem sweep_delivers_due (now : datetime) (envs : nat → PublishEnv)
    (clock : nat → datetime) (w : World) :
  store_ok (db w) →
  (∀ k, load_call (envs k) = Completes ∧ send_call (envs k) = Completes
        ∧ mark_call (envs k) = Completes) →
  let rows := select_posts_to_publish now (db w) in
  let w' := run (check_pending_posts Completes now envs clock) w in
  (∀ k r, rows !! k = Some r →
     deliveries (sp_id (pr_post r)) (trace w')
       = (deliveries (sp_id (pr_post r)) (trace w)
            ++ [mk_call (Some (sp_id (pr_post r))) (publish_request r) true])%list
     ∧ ∀ sp, sp ∈ scheduled_posts (db w') → sp_id sp = sp_id (pr_post r) →
             sp_is_published sp = true ∧ sp_published_at sp = Some (clock k)) ∧
  (∀ now' r' r, r' ∈ select_posts_to_publish now' (db w') → r ∈ rows →
                sp_id (pr_post r') ≠ sp_id (pr_post r)).
Proof.
  intros [Hwf _ _ _ Hids] Henv rows w'.
  assert (∀ r, r ∈ rows →
            sp_id (pr_post r) ≠ 0
            ∧ select_post_to_publish (sp_id (pr_post r)) (db w) = Some r)
    as Hrows.
  { intros r Hr.
    apply elem_of_select_posts_to_publish in Hr
      as (sp & u & c & Hsp & Hu & Hc & ? & ? & ? & Hpub & _ & _ & ->).
    simpl. split.
    - eapply Forall_forall in Hids; [|exact Hsp]. simpl in Hids. lia.
    - apply (select_post_to_publish_joined (db w) sp u c Hwf); [|done].
      by apply elem_of_joined. }
  assert (∀ k r, rows !! k = Some r →
     deliveries (sp_id (pr_post r)) (trace w')
       = (deliveries (sp_id (pr_post r)) (trace w)
            ++ [mk_call (Some (sp_id (pr_post r))) (publish_request r) true])%list
     ∧ ∀ sp, sp ∈ scheduled_posts (db w') → sp_id sp = sp_id (pr_post r) →
             sp_is_published sp = true ∧ sp_published_at sp = Some (clock k))
    as Hdone.
  { intros k r Hk.
    destruct (sweep_loop_delivers envs clock rows Henv
                (select_posts_to_publish_NoDup now (db w) Hwf) 0%nat w)
      with (k := k) (r := r) as (post & Hpost & Hdel & Hpub); [|done|].
    { intros r' Hr'. destruct (Hrows r' Hr') as [? ->]. by split. }
    assert (r ∈ rows) as Hr by (by eapply list_elem_of_lookup_2).
    destruct (Hrows r Hr) as [_ Hsel]. rewrite Hsel in Hpost. simplify_eq.
    assert (w' = run (for_each
                        (λ i post,
                           if truthy_int (sp_id (pr_post post))
                           then publish_scheduled_post (envs i) (clock i)
                                  (sp_id (pr_post post))
                           else ret tt) 0%nat rows) w) as ->.
    { unfold w', run at 1. by rewrite check_pending_posts_completes. }
    split; [exact Hdel|exact Hpub]. }
  split; [exact Hdone|].
  intros now' r' r Hr' Hr Heq.
  apply list_elem_of_lookup_1 in Hr as [k Hk].
  destruct (Hdone k r Hk) as [_ Hpub].
  apply elem_of_select_posts_to_publish in Hr'
    as (sp & u & c & Hsp & _ & _ & _ & _ & _ & Hunpub & _ & _ & ->).
  simpl in Heq. destruct (Hpub sp Hsp Heq) as [Hp _]. congruence.
Qed.

Lemma sweep_delivers_due_witness :
  let w' := run (check_pending_posts Completes 200 (λ _, no_faults)
                   (λ _, 201)) sample_world in
  (∀ k r, select_posts_to_publish 200 (db sample_world) !! k = Some r →
     deliveries (sp_id (pr_post r)) (trace w')
       = (deliveries (sp_id (pr_post r)) (trace sample_world)
            ++ [mk_call (Some (sp_id (pr_post r))) (publish_request r) true])%list
     ∧ ∀ sp, sp ∈ scheduled_posts (db w') → sp_id sp = sp_id (pr_post r) →
             sp_is_published sp = true ∧ sp_published_at sp = Some 201) ∧
  (∀ now' r' r, r' ∈ select_posts_to_publish now' (db w') →
                r ∈ select_posts_to_publish 200 (db sample_world) →
                sp_id (pr_post r') ≠ sp_id (pr_post r)).
Proof.
  apply (sweep_delivers_due 200 (λ _, no_faults) (λ _, 201) sample_world).
  - exact sample_db_store_ok.
  - intros k. repeat split.
Defined.

(** ** Posts are never lost *)

Lemma same_post_refl sp : same_post sp sp.
Proof. by repeat split. Qed.

Lemma same_post_trans sp1 sp2 sp3 :
  same_post sp1 sp2 → same_post sp2 sp3 → same_post sp1 sp3.
Proof.
  intros (?&?&?&?&?&?&?) (?&?&?&?&?&?&?). repeat split; congruence.
Qed.

Global Instance posts_kept_refl : Reflexive posts_kept.
Proof.
  intros d sp Hsp. exists sp. split; [done|]. split; [apply same_post_refl|done].
Qed.

Global Instance posts_kept_trans : Transitive posts_kept.
Proof.
  intros d1 d2 d3 H12 H23 sp Hsp.
  destruct (H12 sp Hsp) as (sp2 & Hsp2 & Hsame & Hpub).
  destruct (H23 sp2 Hsp2) as (sp3 & Hsp3 & Hsame' & Hpub').
  exists sp3. split; [done|]. split; [by eapply same_post_trans|auto].
Qed.

Lemma posts_kept_update_published post_id now d :
  posts_kept d (update_published post_id now d).
Proof.
  intros sp Hsp. exists (set_published post_id now sp). split.
  - unfold update_published. simpl. by apply list_elem_of_fmap_2.
  - unfold set_published. case_bool_decide; simpl.
    + by repeat split.
    + split; [apply same_post_refl|done].
Qed.

Lemma posts_kept_append d sp seq :
  posts_kept d (with_posts d (scheduled_posts d ++ [sp]) seq).
Proof.
  intros sp0 Hsp0. exists sp0. split.
  - simpl. apply elem_of_app. by left.
  - split; [apply same_post_refl|done].
Qed.

Lemma for_each_preserves {A} (R : World → World → Prop)
    `{!Reflexive R, !Transitive R} (body : nat → A → M unit) (l : list A) :
  (∀ i x w, result (body i x) w = Returned tt ∧ R w (run (body i x) w)) →
  ∀ i w, result (for_each body i l) w = Returned tt
         ∧ R w (run (for_each body i l) w).
Proof.
  intros Hbody. induction l as [|x l IH]; intros i w.
  { split; [done|]. unfold run. simpl. reflexivity. }
  destruct (Hbody i x w) as [Hres HR].
  cbn [for_each]. unfold result, run in *.
  rewrite (bind_returned _ _ _ tt Hres).
  destruct (IH (S i) (run (body i x) w)) as [Hres' HR'].
  split; [exact Hres'|]. etrans; [exact HR|exact HR'].
Qed.

Global Instance keeps_posts_refl : Reflexive keeps_posts.
Proof. intros w. unfold keeps_posts. reflexivity. Qed.

Global Instance keeps_posts_trans : Transitive keeps_posts.
Proof. intros w1 w2 w3. unfold keeps_posts. apply posts_kept_trans. Qed.

Lemma publish_keeps_posts e now post_id w :
  keeps_posts w (run (publish_scheduled_post e now post_id) w).
Proof.
  unfold keeps_posts.
  destruct (publish_db e now post_id w) as [[->| ->] _];
    [reflexivity|apply posts_kept_update_published].
Qed.

Lemma on_startup_rebuild_fails e admin_id now_db utcnow w :
  connect_call e = Completes →
  rebuild_call e = Fails →
  on_startup e admin_id now_db utcnow w
    = (Returned tt,
       mk_world (db w) (trace w)
         (log w
            ++ [(INFO, ev_starting); (INFO, ev_db_connected);
                (INFO, ev_scheduler_started);
                (ERROR, ev_load_failed StorageError)]
            ++ match users_call e with
               | Completes => []
               | Fails => [(ERROR, ev_store_error "get_all_users")]
               end
            ++ [(ERROR, ev_admin_notice_failed NameError); (INFO, ev_started)])
         (mk_scheduler true (Some (minutes 1)) (post_jobs (scheduler w)))).
Proof.
  intros Hc Hr. unfold on_startup. rewrite Hc, Hr.
  unfold db_connect, scheduler_start, add_check_posts_job, get_all_users.
  unfold try_except, bind, ret, raise, logger, modify, gets, driver, bot_call.
  destruct w as [d tr lg [r c js]].
  destruct (users_call e); cbn -[merge_sort minutes];
    unfold add_log; cbn -[merge_sort minutes];
    by rewrite <- ?app_assoc.
Qed.

Lemma on_startup_connect_fails e admin_id now_db utcnow w :
  connect_call e = Fails →
  on_startup e admin_id now_db utcnow w
    = (Raised StorageError,
       mk_world (db w) (trace w)
         (log w ++ [(INFO, ev_starting); (ERROR, ev_store_error "connect")])
         (scheduler w)).
Proof.
  intros Hc. unfold on_startup. rewrite Hc.
  unfold db_connect, try_except, bind, ret, raise, logger, modify.
  destruct w as [d tr lg sc]. unfold add_log. cbn.
  by rewrite <- app_assoc.
Qed.

Lemma on_startup_db e admin_id now_db utcnow w :
  db (run (on_startup e admin_id now_db utcnow) w) = db w.
Proof.
  unfold run.
  destruct (connect_call e) eqn:Hc; [|by rewrite on_startup_connect_fails].
  destruct (rebuild_call e) eqn:Hr; [|by rewrite on_startup_rebuild_fails].
  by destruct (on_startup_spec e admin_id now_db utcnow w Hc Hr) as (_ & ? & _).
Qed.

(** The store after a run of the handler: as before; with one value of
    the sequence used up (PostgreSQL refused the row); or with the row
    appended. *)
Lemma process_post_time_db text t_today t_lead t_horizon data call now_db
    answer_call w :
  let d' :=
    db (run (process_post_time text t_today t_lead t_horizon data call now_db
               answer_call) w) in
  d' = db w
  ∨ d' = with_posts (db w) (scheduled_posts (db w)) (posts_seq (db w) + 1)
  ∨ ∃ sp,
      sp_id sp = posts_seq (db w) + 1 ∧
      d' = with_posts (db w) (scheduled_posts (db w) ++ [sp])
             (posts_seq (db w) + 1).
Proof.
  unfold run, process_post_time.
  assert (∀ r, db (answer answer_call r w).2 = db w) as Hplain
    by (intros r; unfold answer; by destruct answer_call).
  destruct text as [text'|]; [|by left].
  case_bool_decide; [by left|].
  destruct (strptime_HM _) as [post_time|]; [|by left].
  destruct (check_post_time _ _ _); [|by left|by left].
  destruct (sd_user_id data) as [user_id|]; [|by left].
  destruct (sd_channel_id data) as [channel_id|]; [|by left].
  destruct (sd_message_text data) as [message_text|]; [|by left].
  destruct (_ && _); [|by left].
  clear Hplain. unfold_handler.
  destruct call as [[]|]; cbn.
  - destruct (_ && _); cbn; [right; left; by destruct answer_call|].
    right; right. eexists (mk_post _ _ _ _ _ _ _ _ _).
    split; [reflexivity|].
    destruct (truthy_int _); by destruct answer_call.
  - left. by destruct answer_call.
  - destruct (_ && _); cbn; [right; left; by destruct answer_call|].
    right; right. eexists (mk_post _ _ _ _ _ _ _ _ _).
    split; [reflexivity|]. by destruct answer_call.
Qed.

Lemma posts_kept_same_rows d seq :
  posts_kept d (with_posts d (scheduled_posts d) seq).
Proof.
  intros sp Hin. exists sp. split; [done|]. split; [|done].
  apply same_post_refl.
Qed.

(** X7: no operation of the scheduling core deletes a post, changes its
    content or due time, or takes back its published flag: every post
    present before a run of the executor, a sweep, a firing of the due
    jobs, the startup, the time-entry handler or the mark is present
    after it, with the same content, and published if it was. *)
Theorem posts_never_lost (w : World) :
  (∀ e now post_id,
     posts_kept (db w) (db (run (publish_scheduled_post e now post_id) w))) ∧
  (∀ call now post_id,
     posts_kept (db w) (db (run (mark_post_published call now post_id) w))) ∧
  (∀ query_call now envs clock,
     posts_kept (db w)
       (db (run (check_pending_posts query_call now envs clock) w))) ∧
  (∀ envs db_clock t,
     posts_kept (db w) (db (run (advance_clock envs db_clock t) w))) ∧
  (∀ e admin_id now_db utcnow,
     posts_kept (db w) (db (run (on_startup e admin_id now_db utcnow) w))) ∧
  (∀ text t_today t_lead t_horizon data call now_db answer_call,
     posts_kept (db w)
       (db (run (process_post_time text t_today t_lead t_horizon data call
                   now_db answer_call) w))).
Proof.
  split; [intros; apply publish_keeps_posts|].
  split.
  { intros [[]|] now post_id;
      [apply posts_kept_update_published|reflexivity
      |apply posts_kept_update_published]. }
  split.
  { intros query_call now envs clock.
    set (body := λ (i : nat) (post : PublishRow),
                   if truthy_int (sp_id (pr_post post))
                   then publish_scheduled_post (envs i) (clock i)
                          (sp_id (pr_post post))
                   else ret tt).
    assert (∀ i x w0, result (body i x) w0 = Returned tt
                      ∧ keeps_posts w0 (run (body i x) w0)) as Hbody.
    { intros i x w0. unfold body. destruct (truthy_int _).
      - split; [apply publish_never_raises|apply publish_keeps_posts].
      - split; [done|reflexivity]. }
    destruct query_call.
    - unfold run at 1. rewrite check_pending_posts_completes. cbn [snd].
      apply (for_each_preserves keeps_posts body _ Hbody).
    - reflexivity. }
  split.
  { intros envs db_clock t. unfold run at 1.
    destruct (running (scheduler w)) eqn:Hrun;
      [|by rewrite advance_clock_stopped].
    rewrite advance_clock_unfold by done.
    apply (for_each_preserves keeps_posts
             (λ _ j, fire_post_job (envs j.1) j.1 (db_clock j.1))).
    intros i x w0. unfold result, run. rewrite fire_post_job_unfold.
    split; [apply publish_never_raises|].
    apply (publish_keeps_posts (envs x.1) (db_clock x.1) x.1
             (without_job x.1 w0)). }
  split.
  { intros. rewrite on_startup_db. reflexivity. }
  intros text t_today t_lead t_horizon data call now_db answer_call.
  destruct (process_post_time_db text t_today t_lead t_horizon data call
              now_db answer_call w) as [->|[->|(sp & _ & ->)]];
    [reflexivity|apply posts_kept_same_rows|apply posts_kept_append].
Qed.

(** ** Startup when the store fails *)

(** X8: when the store is connected but the read of the pending posts
    fails, startup still completes and starts the scheduler with the
    recurring sweep, but arms no one-shot job, and the notice to the
    administrator is never sent, whatever the transport does: the count of
    loaded posts is undefined, and the resulting error is only logged. *)
Theorem startup_rebuild_failure (e : StartupEnv) (admin_id : Z)
    (now_db : datetime) (utcnow : nat → datetime) (w : World) :
  connect_call e = Completes →
  rebuild_call e = Fails →
  let w' := run (on_startup e admin_id now_db utcnow) w in
  result (on_startup e admin_id now_db utcnow) w = Returned tt ∧
  db w' = db w ∧
  running (scheduler w') = true ∧
  check_posts_job (scheduler w') = Some (minutes 1) ∧
  post_jobs (scheduler w') = post_jobs (scheduler w) ∧
  trace w' = trace w ∧
  (ERROR, ev_load_failed StorageError) ∈ log w' ∧
  (ERROR, ev_admin_notice_failed NameError) ∈ log w'.
Proof.
  intros Hc Hr. unfold run, result.
  rewrite (on_startup_rebuild_fails e admin_id now_db utcnow w Hc Hr).
  cbn [fst snd db trace log scheduler running check_posts_job post_jobs].
  repeat split.
  - rewrite !elem_of_app. right. left. rewrite !elem_of_cons. tauto.
  - rewrite !elem_of_app. right. right. right. left.
Qed.

Lemma startup_rebuild_failure_witness :
  let e := mk_startup_env Completes Fails Completes Completes in
  let w' := run (on_startup e 7 100 (λ _, 101)) sample_world in
  result (on_startup e 7 100 (λ _, 101)) sample_world = Returned tt ∧
  db w' = db sample_world ∧
  running (scheduler w') = true ∧
  check_posts_job (scheduler w') = Some (minutes 1) ∧
  post_jobs (scheduler w') = post_jobs (scheduler sample_world) ∧
  trace w' = trace sample_world ∧
  (ERROR, ev_load_failed StorageError) ∈ log w' ∧
  (ERROR, ev_admin_notice_failed NameError) ∈ log w'.
Proof.
  apply (startup_rebuild_failure
           (mk_startup_env Completes Fails Completes Completes) 7 100
           (λ _, 101) sample_world); reflexivity.
Defined.

(** X9: when the connection to the store fails, startup raises the
    storage error to its caller right away: the scheduler is not started,
    no job is registered, nothing is sent, and the log records the
    failure. *)
Theorem startup_connect_failure (e : StartupEnv) (admin_id : Z)
    (now_db : datetime) (utcnow : nat → datetime) (w : World) :
  connect_call e = Fails →
  let w' := run (on_startup e admin_id now_db utcnow) w in
  result (on_startup e admin_id now_db utcnow) w = Raised StorageError ∧
  db w' = db w ∧
  scheduler w' = scheduler w ∧
  trace w' = trace w ∧
  log w' = (log w ++ [(INFO, ev_starting);
                      (ERROR, ev_store_error "connect")])%list.
Proof.
  intros Hc. unfold run, result.
  by rewrite (on_startup_connect_fails e admin_id now_db utcnow w Hc).
Qed.

Lemma startup_connect_failure_witness :
  let e := mk_startup_env Fails Completes Completes Completes in
  let w' := run (on_startup e 7 100 (λ _, 101)) sample_world in
  result (on_startup e 7 100 (λ _, 101)) sample_world = Raised StorageError ∧
  db w' = db sample_world ∧
  scheduler w' = scheduler sample_world ∧
  trace w' = trace sample_world ∧
  log w' = (log sample_world ++ [(INFO, ev_starting);
                                 (ERROR, ev_store_error "connect")])%list.
Proof.
  apply (startup_connect_failure
           (mk_startup_env Fails Completes Completes Completes) 7 100
           (λ _, 101) sample_world); reflexivity.
Defined.


(** ** Keys and sequences are maintained *)

Lemma fmap_key_preserved {A K} (key : A → K) (f : A → A) (l : list A) :
  (∀ x, key (f x) = key x) → key <$> (f <$> l) = key <$> l.
Proof.
  intros Hk. rewrite <- list_fmap_compose. apply list_fmap_ext.
  intros i x _. apply Hk.
Qed.

Lemma Forall_fmap_preserved {A} (P : A → Prop) (f : A → A) (l : list A) :
  (∀ x, P x → P (f x)) → Forall P l → Forall P (f <$> l).
Proof.
  intros Hf Hl. apply Forall_fmap. eapply Forall_impl; [exact Hl|]. exact Hf.
Qed.

Lemma store_ok_update_published post_id now d :
  store_ok d → store_ok (update_published post_id now d).
Proof.
  intros [[Hp Hu Ht Hc] Hus0 Hps0 Hus Hps].
  assert (∀ sp, sp_id (set_published post_id now sp) = sp_id sp) as Hid.
  { intros sp. unfold set_published. by case_bool_decide. }
  split; [split|..]; simpl; try done.
  - by rewrite fmap_key_preserved.
  - apply Forall_fmap_preserved; [|done]. intros sp. by rewrite Hid.
Qed.

Lemma store_ok_append_post d sp :
  store_ok d → sp_id sp = posts_seq d + 1 →
  store_ok (with_posts d (scheduled_posts d ++ [sp]) (posts_seq d + 1)).
Proof.
  intros [[Hp Hu Ht Hc] Hus0 Hps0 Hus Hps] Hid.
  split; [split|..]; simpl; try done; try lia.
  - rewrite fmap_app. apply NoDup_app. split; [done|]. split.
    + intros x Hx [->|[]%elem_of_nil]%elem_of_cons.
      apply list_elem_of_fmap in Hx as (sp0 & Heq & Hsp0).
      eapply Forall_forall in Hps; [|exact Hsp0]. lia.
    + apply NoDup_singleton.
  - apply Forall_app. split.
    + eapply Forall_impl; [exact Hps|]. simpl. intros sp0 ?. lia.
    + apply Forall_singleton. lia.
Qed.

Lemma select_user_None telegram_id d u :
  select_user telegram_id d = None → u ∈ users d →
  u_telegram_id u ≠ telegram_id.
Proof.
  unfold select_user. intros Hh Hu Heq.
  destruct (filter _ (users d)) as [|u0 us] eqn:Hf; [|done].
  by apply (filter_nil_not_elem_of _ _ u Hf Heq).
Qed.

Lemma store_ok_insert_user now telegram_id username full_name d :
  store_ok d → select_user telegram_id d = None →
  store_ok (insert_user now telegram_id username full_name d).2.
Proof.
  intros [[Hp Hu Ht Hc] Hus0 Hps0 Hus Hps] Hnone.
  split; [split|..]; simpl; try done; try lia.
  - rewrite fmap_app. apply NoDup_app. split; [done|]. split.
    + intros x Hx [->|[]%elem_of_nil]%elem_of_cons.
      apply list_elem_of_fmap in Hx as (u0 & Heq & Hu0).
      eapply Forall_forall in Hus; [|exact Hu0]. simpl in *. lia.
    + apply NoDup_singleton.
  - rewrite fmap_app. apply NoDup_app. split; [done|]. split.
    + intros x Hx [->|[]%elem_of_nil]%elem_of_cons.
      apply list_elem_of_fmap in Hx as (u0 & Heq & Hu0). simpl in *.
      by apply (select_user_None telegram_id d u0).
    + apply NoDup_singleton.
  - apply Forall_app. split.
    + eapply Forall_impl; [exact Hus|]. simpl. intros u0 ?. lia.
    + apply Forall_singleton. simpl. lia.
Qed.

Lemma store_ok_map_users (f : User → User) d :
  (∀ u, u_id (f u) = u_id u ∧ u_telegram_id (f u) = u_telegram_id u) →
  store_ok d → store_ok (with_users d (f <$> users d) (users_seq d)).
Proof.
  intros Hf [[Hp Hu Ht Hc] Hus0 Hps0 Hus Hps].
  split; [split|..]; simpl; try done.
  - rewrite fmap_key_preserved; [done|]. intros u. apply Hf.
  - rewrite fmap_key_preserved; [done|]. intros u. apply Hf.
  - apply Forall_fmap_preserved; [|done]. intros u.
    by destruct (Hf u) as [-> _].
Qed.

Lemma store_ok_insert_channel now new_id user_id channel_id channel_title d d' :
  store_ok d →
  insert_channel now new_id user_id channel_id channel_title d = Some d' →
  store_ok d'.
Proof.
  intros [[Hp Hu Ht Hc] Hus0 Hps0 Hus Hps]. unfold insert_channel.
  set (key := λ c : Channel, (c_user_id c, c_channel_id c)).
  assert (∀ c : Channel, same_binding user_id channel_id c
                         ↔ key c = (user_id, channel_id)) as Hkey.
  { intros c. unfold same_binding, key. split; [by intros [-> ->]|].
    by intros [= -> ->]. }
  destruct (is_sqlite d); simpl.
  - intros [= <-]. split; [split|..]; simpl; try done.
    rewrite fmap_app. apply NoDup_app. split; [|split].
    + eapply sublist_NoDup; [exact Hc|].
      apply (fmap_sublist key), sublist_filter.
    + intros x Hx [->|[]%elem_of_nil]%elem_of_cons.
      apply list_elem_of_fmap in Hx as (c & Heq & Hin).
      apply list_elem_of_filter in Hin as [Hnot _]. apply Hnot.
      apply Hkey. unfold key. simpl in Heq. congruence.
    + apply NoDup_singleton.
  - case_bool_decide as Hex.
    + intros [= <-]. split; [split|..]; simpl; try done.
      rewrite fmap_key_preserved; [done|].
      intros c. unfold reactivate. by case_bool_decide.
    + case_bool_decide; [|done].
      intros [= <-]. split; [split|..]; simpl; try done.
      rewrite fmap_app. apply NoDup_app. split; [done|]. split.
      * intros x Hx [->|[]%elem_of_nil]%elem_of_cons.
        apply list_elem_of_fmap in Hx as (c & Heq & Hin).
        apply Hex. apply Exists_exists. exists c. split; [done|].
        apply Hkey. unfold key. simpl in Heq. congruence.
      * apply NoDup_singleton.
Qed.

Lemma get_or_create_user_db call now telegram_id username full_name w :
  db (run (get_or_create_user call now telegram_id username full_name) w)
    = db w
  ∨ (select_user telegram_id (db w) = None ∧
     db (run (get_or_create_user call now telegram_id username full_name) w)
       = (insert_user now telegram_id username full_name (db w)).2)
  ∨ (∃ u, db (run (get_or_create_user call now telegram_id username
                     full_name) w)
          = with_users (db w)
              (set_username (u_id u) username now <$> users (db w))
              (users_seq (db w))).
Proof.
  unfold run, get_or_create_user, try_except, write.
  destruct call as [[]|]; [|by left|];
    (destruct (select_user telegram_id (db w)) as [u|] eqn:Hsel;
     destruct (is_sqlite (db w)); cbn -[select_user insert_user];
     [left; by destruct w
     |destruct (_ && _); cbn; [right; right; by exists u|left; by destruct w]
     |right; left; split; [done|]
     |right; left; split; [done|]]).
  - by destruct (insert_user _ _ _ _ _) as [u0 d0], (select_user _ d0).
  - by destruct (insert_user _ _ _ _ _).
  - by destruct (insert_user _ _ _ _ _).
  - by destruct (insert_user _ _ _ _ _).
Qed.

Lemma store_ok_insert_post now user_id channel_id message_text scheduled_time
    photo_id d :
  store_ok d →
  store_ok (insert_post now user_id channel_id message_text scheduled_time
              photo_id d).2.
Proof.
  intros Hok. unfold insert_post. destruct (_ && _); cbn [snd].
  - destruct Hok as [[Hp Hu Ht Hc] Hus0 Hps0 Hus Hps].
    split; [split|..]; simpl; try done; try lia.
    eapply Forall_impl; [exact Hps|]. simpl. intros sp0 ?. lia.
  - by apply store_ok_append_post.
Qed.

Lemma store_ok_get_or_create_user call now telegram_id username full_name w :
  store_ok (db w) →
  store_ok (db (run (get_or_create_user call now telegram_id username
                       full_name) w)).
Proof.
  intros Hok.
  destruct (get_or_create_user_db call now telegram_id username full_name w)
    as [->|[[Hnone ->]|[u ->]]]; [done|by apply store_ok_insert_user|].
  apply store_ok_map_users; [|done].
  intros u0. unfold set_username. by case_bool_decide.
Qed.

Global Instance keeps_store_ok_refl : Reflexive keeps_store_ok.
Proof. intros w H. exact H. Qed.

Global Instance keeps_store_ok_trans : Transitive keeps_store_ok.
Proof. intros w1 w2 w3 H12 H23 H. apply H23, H12, H. Qed.

Lemma publish_keeps_store_ok e now post_id w :
  keeps_store_ok w (run (publish_scheduled_post e now post_id) w).
Proof.
  intros Hok.
  destruct (publish_db e now post_id w) as [[->| ->] _];
    [done|by apply store_ok_update_published].
Qed.

(** X10: every operation keeps the constraints the other properties rest
    on: identifiers of posts and users stay unique, positive and below
    their sequences, Telegram accounts stay unique among users, and the
    pair (owner, channel) stays unique among channels. *)
Theorem store_constraints_kept (w : World) :
  store_ok (db w) →
  (∀ call now telegram_id username full_name,
     store_ok (db (run (get_or_create_user call now telegram_id username
                          full_name) w))) ∧
  (∀ call now_local now telegram_id subscribed days_,
     store_ok (db (run (update_user_subscription call now_local now
                          telegram_id subscribed days_) w))) ∧
  (∀ call now new_id user_id channel_id channel_title,
     store_ok (db (run (add_channel call now new_id user_id channel_id
                          channel_title) w))) ∧
  (∀ call now user_id channel_id message_text scheduled_time photo_id,
     store_ok (db (run (add_scheduled_post call now user_id channel_id
                          message_text scheduled_time photo_id) w))) ∧
  (∀ call now post_id,
     store_ok (db (run (mark_post_published call now post_id) w))) ∧
  (∀ e now post_id,
     store_ok (db (run (publish_scheduled_post e now post_id) w))) ∧
  (∀ query_call now envs clock,
     store_ok (db (run (check_pending_posts query_call now envs clock) w))) ∧
  (∀ envs db_clock t,
     store_ok (db (run (advance_clock envs db_clock t) w))) ∧
  (∀ e admin_id now_db utcnow,
     store_ok (db (run (on_startup e admin_id now_db utcnow) w))) ∧
  (∀ text t_today t_lead t_horizon data call now_db answer_call,
     store_ok (db (run (process_post_time text t_today t_lead t_horizon data
                          call now_db answer_call) w))).
Proof.
  intros Hok.
  split; [intros; by apply store_ok_get_or_create_user|].
  split.
  { intros [[]|] now_local now telegram_id subscribed days_; [|done|];
      (apply (store_ok_map_users
                (grant telegram_id subscribed (now_local + days days_) now));
       [|done]);
      intros u; unfold grant; by case_bool_decide. }
  split.
  { intros [[]|] now new_id user_id channel_id channel_title; [|done|];
      unfold run, add_channel, try_except, bind, write;
      (destruct (insert_channel _ _ _ _ _ _) as [d'|] eqn:Hins; cbn;
       [|done]);
      by eapply store_ok_insert_channel. }
  split.
  { intros [[]|] now user_id channel_id message_text scheduled_time photo_id;
      [|done|];
      pose proof (store_ok_insert_post now user_id channel_id message_text
                    scheduled_time photo_id (db w) Hok) as Hins;
      unfold run, add_scheduled_post, try_except, write;
      by destruct (insert_post _ _ _ _ _ _ _) as [[a|] d']. }
  split.
  { intros [[]|] now post_id;
      [by apply store_ok_update_published|done
      |by apply store_ok_update_published]. }
  split; [intros; by apply publish_keeps_store_ok|].
  split.
  { intros query_call now envs clock.
    set (body := λ (i : nat) (post : PublishRow),
                   if truthy_int (sp_id (pr_post post))
                   then publish_scheduled_post (envs i) (clock i)
                          (sp_id (pr_post post))
                   else ret tt).
    assert (∀ i x w0, result (body i x) w0 = Returned tt
                      ∧ keeps_store_ok w0 (run (body i x) w0)) as Hbody.
    { intros i x w0. unfold body. destruct (truthy_int _).
      - split; [apply publish_never_raises|apply publish_keeps_store_ok].
      - split; [done|reflexivity]. }
    destruct query_call; [|done].
    unfold run at 1. rewrite check_pending_posts_completes. cbn [snd].
    by apply (for_each_preserves keeps_store_ok body _ Hbody). }
  split.
  { intros envs db_clock t. unfold run at 1.
    destruct (running (scheduler w)) eqn:Hrun;
      [|by rewrite advance_clock_stopped].
    rewrite advance_clock_unfold by done.
    apply (for_each_preserves keeps_store_ok
             (λ _ j, fire_post_job (envs j.1) j.1 (db_clock j.1)));
      [|done].
    intros i x w0. unfold result, run. rewrite fire_post_job_unfold.
    split; [apply publish_never_raises|].
    apply (publish_keeps_store_ok (envs x.1) (db_clock x.1) x.1
             (without_job x.1 w0)). }
  split.
  { intros. by rewrite on_startup_db. }
  intros text t_today t_lead t_horizon data call now_db answer_call.
  destruct (process_post_time_db text t_today t_lead t_horizon data call
              now_db answer_call w) as [->|[->|(sp & Hid & ->)]];
    [done| |by apply store_ok_append_post].
  destruct Hok as [[Hp Hu Ht Hc] Hus0 Hps0 Hus Hps].
  split; [split|..]; simpl; try done; try lia.
  eapply Forall_impl; [exact Hps|]. simpl. intros sp0 ?. lia.
Qed.

Lemma store_constraints_kept_witness :
  store_ok (db sample_world) ∧
  store_ok
    (db (run (add_scheduled_post Completes 0 1 "@news" "again" 900 None)
           sample_world)).
Proof.
  split; [exact sample_db_store_ok|].
  apply (store_constraints_kept sample_world sample_db_store_ok).
Defined.

(** ** Adding a channel and listing the channels *)

Lemma elem_of_select_user_channels user_id d c :
  c ∈ select_user_channels user_id d ↔
    c ∈ channels d ∧ c_user_id c = user_id ∧ c_is_active c = true.
Proof.
  unfold select_user_channels.
  rewrite merge_sort_Permutation, list_elem_of_filter. tauto.
Qed.

Lemma add_channel_returns_true call now new_id user_id channel_id
    channel_title w :
  result (add_channel call now new_id user_id channel_id channel_title) w
    = Returned true →
  ∃ d', insert_channel now new_id user_id channel_id channel_title (db w)
          = Some d'
        ∧ run (add_channel call now new_id user_id channel_id channel_title) w
          = set_db d' w.
Proof.
  unfold result, run, add_channel, try_except, bind, ret, raise, logger,
    modify, write.
  destruct call as [[]|]; cbn; [|done|];
    (destruct (insert_channel _ _ _ _ _ _) as [d'|]; cbn; [|done]);
    [|done].
  intros _. by exists d'.
Qed.

Lemma insert_channel_channels now new_id user_id channel_id channel_title
    d d' :
  insert_channel now new_id user_id channel_id channel_title d = Some d' →
  users d' = users d ∧ scheduled_posts d' = scheduled_posts d ∧
  (∃ c, c ∈ channels d' ∧ same_binding user_id channel_id c ∧
        c_channel_title c = channel_title ∧ c_is_active c = true) ∧
  (∀ c, ¬ same_binding user_id channel_id c →
        c ∈ channels d' ↔ c ∈ channels d).
Proof.
  unfold insert_channel. intros Hins.
  destruct (is_sqlite d); cbn in Hins.
  - injection Hins as <-. cbn. split; [done|]. split; [done|]. split.
    + eexists. split; [apply elem_of_app; right; apply list_elem_of_here|].
      done.
    + intros c Hc. rewrite elem_of_app, list_elem_of_filter,
        list_elem_of_singleton.
      split; [intros [[_ ?]| ->]; [done|]|intros ?; by left].
      by destruct Hc.
  - case_bool_decide as Hex.
    + injection Hins as <-. cbn. split; [done|]. split; [done|]. split.
      * apply Exists_exists in Hex as (c & Hc & Hb).
        exists (reactivate user_id channel_id channel_title c).
        split; [apply list_elem_of_fmap; by exists c|].
        unfold reactivate. rewrite bool_decide_eq_true_2 by done. done.
      * intros c Hc. rewrite list_elem_of_fmap. split.
        -- intros (x & -> & Hx). unfold reactivate in *.
           case_bool_decide as Hb; [|done].
           destruct Hc. destruct Hb. done.
        -- intros Hin. exists c. split; [|done].
           unfold reactivate. by rewrite bool_decide_eq_false_2.
    + case_bool_decide as Hu; [|done].
      injection Hins as <-. cbn. split; [done|]. split; [done|]. split.
      * eexists. split; [apply elem_of_app; right; apply list_elem_of_here|].
        done.
      * intros c Hc. rewrite elem_of_app, list_elem_of_singleton.
        split; [intros [?| ->]; [done|]|intros ?; by left].
        by destruct Hc.
Qed.

Lemma listed_channel_ids_NoDup user_id (cs : list Channel) :
  NoDup ((λ c, (c_user_id c, c_channel_id c)) <$> cs) →
  NoDup (c_channel_id <$>
           filter (λ c, c_user_id c = user_id ∧ c_is_active c = true) cs).
Proof.
  induction cs as [|x cs IH]; [constructor|].
  rewrite fmap_cons, NoDup_cons. intros [Hx Hcs].
  destruct (decide (c_user_id x = user_id ∧ c_is_active x = true))
    as [HP|HP].
  - rewrite filter_cons_True by done. rewrite fmap_cons, NoDup_cons.
    split; [|by apply IH].
    intros Hin. apply Hx.
    apply list_elem_of_fmap in Hin as (y & Hy & Hin).
    apply list_elem_of_filter in Hin as [[Hu _] Hin].
    apply list_elem_of_fmap. exists y. split; [|done].
    destruct HP as [HP _]. by rewrite Hy, Hu, HP.
  - rewrite filter_cons_False by done. by apply IH.
Qed.

(** X11: when [add_channel] returns True, the owner's list of channels
    shows the channel, active and under the title given; no channel id is
    listed twice; the owner's other channels are listed as before, and so
    are the channels of every other user. Users and posts are unchanged. *)
Theorem add_channel_then_listed call now new_id user_id channel_id
    channel_title w :
  store_ok (db w) →
  result (add_channel call now new_id user_id channel_id channel_title) w
    = Returned true →
  let d' :=
    db (run (add_channel call now new_id user_id channel_id channel_title) w)
  in
  (∃ c, c ∈ select_user_channels user_id d' ∧ c_channel_id c = channel_id
        ∧ c_channel_title c = channel_title) ∧
  NoDup (c_channel_id <$> select_user_channels user_id d') ∧
  (∀ c, c_channel_id c ≠ channel_id →
        c ∈ select_user_channels user_id d'
        ↔ c ∈ select_user_channels user_id (db w)) ∧
  (∀ other c, other ≠ user_id →
        c ∈ select_user_channels other d'
        ↔ c ∈ select_user_channels other (db w)) ∧
  users d' = users (db w) ∧ scheduled_posts d' = scheduled_posts (db w).
Proof.
  intros Hok Hres.
  destruct (add_channel_returns_true _ _ _ _ _ _ _ Hres) as (d' & Hins & ->).
  cbn. destruct (insert_channel_channels _ _ _ _ _ _ _ Hins)
    as (Hu & Hp & (c & Hc & [Hcu Hci] & Hct & Hca) & Hrest).
  split; [|split; [|split; [|split; [|done]]]].
  - exists c. rewrite elem_of_select_user_channels. done.
  - unfold select_user_channels. rewrite merge_sort_Permutation.
    apply listed_channel_ids_NoDup.
    apply (ok_keys d'), (store_ok_insert_channel _ _ _ _ _ _ _ Hok Hins).
  - intros c0 Hc0. rewrite !elem_of_select_user_channels, Hrest; [done|].
    intros [_ ?]. done.
  - intros other c0 Hother. rewrite !elem_of_select_user_channels.
    split; intros (Hin & Hcu0 & Hact); (split; [|done]);
      (apply Hrest; [|done]); intros [? _]; congruence.
Qed.

Lemma add_channel_then_listed_witness :
  store_ok (db sample_world) ∧
  result (add_channel Completes 10 2 1 "@sport" "Sport") sample_world
    = Returned true ∧
  ∃ c, c ∈ select_user_channels 1
             (db (run (add_channel Completes 10 2 1 "@sport" "Sport")
                    sample_world))
       ∧ c_channel_id c = "@sport" ∧ c_channel_title c = "Sport".
Proof.
  split; [exact sample_db_store_ok|]. split; [reflexivity|].
  apply (add_channel_then_listed Completes 10 2 1 "@sport" "Sport"
           sample_world sample_db_store_ok eq_refl).
Defined.

(** X12: when [add_channel] returns True, every pending post of the owner
    for that channel whose time has come (within the five minutes of the
    scan) is returned by the due-posts query, whatever the state of the
    channel row was before. *)
Theorem add_channel_makes_posts_due call now new_id user_id channel_id
    channel_title w sp u t :
  result (add_channel call now new_id user_id channel_id channel_title) w
    = Returned true →
  sp ∈ scheduled_posts (db w) → u ∈ users (db w) →
  sp_user_id sp = u_id u → u_id u = user_id →
  sp_channel_id sp = channel_id →
  sp_is_published sp = false →
  sp_scheduled_time sp ≤ t + minutes 5 →
  mk_row sp (u_telegram_id u) channel_id
    ∈ select_posts_to_publish t
        (db (run (add_channel call now new_id user_id channel_id
                    channel_title) w)).
Proof.
  intros Hres Hsp Hu Hspu Huid Hspc Hpub Htime.
  destruct (add_channel_returns_true _ _ _ _ _ _ _ Hres) as (d' & Hins & ->).
  cbn. destruct (insert_channel_channels _ _ _ _ _ _ _ Hins)
    as (Hus & Hps & (c & Hc & [Hcu Hci] & _ & Hca) & _).
  apply elem_of_select_posts_to_publish. exists sp, u, c.
  rewrite Hus, Hps, Hci, Hcu. done.
Qed.

Lemma add_channel_makes_posts_due_witness :
  mk_row sample_post_1 1001 "@news"
    ∈ select_posts_to_publish 500
        (db (run (add_channel Completes 10 2 1 "@news" "News")
               sample_world_off)).
Proof.
  apply (add_channel_makes_posts_due Completes 10 2 1 "@news" "News"
           sample_world_off sample_post_1 sample_user 500);
    try reflexivity.
  - apply list_elem_of_here.
  - apply list_elem_of_here.
  - vm_compute. discriminate.
Defined.

(** ** The daily limit *)

Lemma process_post_time_stored text t_today t_lead t_horizon data call
    now_db answer_call w post_id s :
  result (process_post_time text t_today t_lead t_horizon data call now_db
            answer_call) w
    = Returned (reply_scheduled post_id s) →
  ∃ user_id channel_id message_text,
    sd_user_id data = Some user_id ∧
    sd_channel_id data = Some channel_id ∧
    sd_message_text data = Some message_text ∧
    date_of s = date_of t_today ∧
    post_id = posts_seq (db w) + 1 ∧
    db (run (process_post_time text t_today t_lead t_horizon data call
               now_db answer_call) w)
      = with_posts (db w)
          (scheduled_posts (db w)
             ++ [mk_post post_id user_id channel_id message_text
                   (sd_photo_id data) s false now_db None])
          post_id.
Proof.
  unfold result, run, process_post_time. intros Hr.
  destruct text as [text'|]; [|by destruct answer_call].
  case_bool_decide; [by destruct answer_call|].
  destruct (strptime_HM _) as [post_time|] eqn:Hparse;
    [|by destruct answer_call].
  destruct (check_post_time _ _ _) eqn:Hcheck; try by destruct answer_call.
  destruct (sd_user_id data) as [user_id|]; [|by destruct answer_call].
  destruct (sd_channel_id data) as [channel_id|]; [|by destruct answer_call].
  destruct (sd_message_text data) as [message_text|];
    [|by destruct answer_call].
  destruct (_ && _); [|by destruct answer_call].
  revert Hr. unfold_handler.
  destruct call as [[]|]; cbn; try by destruct answer_call.
  - destruct (_ && _); cbn; [by destruct answer_call|].
    destruct (truthy_int (posts_seq (db w) + 1));
      destruct answer_call; cbn; try done.
    intros [= <- <-].
    apply strptime_HM_range in Hparse as [Hh Hm].
    exists user_id, channel_id, message_text.
    repeat split; try done.
    by apply date_of_combine.
  - destruct (_ && _); cbn; by destruct answer_call.
Qed.

Lemma todays_pending_append now user_id d sp seq :
  todays_pending now user_id (with_posts d (scheduled_posts d ++ [sp]) seq)
    = (todays_pending now user_id d
         ++ filter (λ sp, sp_user_id sp = user_id
                          ∧ date_of (sp_scheduled_time sp) = date_of now
                          ∧ sp_is_published sp = false) [sp])%list.
Proof. unfold todays_pending. simpl. by rewrite filter_app. Qed.

Lemma elem_of_todays_pending now user_id d sp :
  sp ∈ todays_pending now user_id d ↔
    sp ∈ scheduled_posts d ∧ sp_user_id sp = user_id ∧
    date_of (sp_scheduled_time sp) = date_of now ∧
    sp_is_published sp = false.
Proof. unfold todays_pending. rewrite list_elem_of_filter. tauto. Qed.

(** Marking one pending post of today removes exactly that post from
    the count. *)
Lemma pending_after_mark (P : ScheduledPost → Prop)
    `{!∀ sp, Decision (P sp)} (l : list ScheduledPost) p t :
  (∀ sp, P sp → sp_is_published sp = false) →
  NoDup (sp_id <$> l) → p ∈ l → P p →
  (length (filter P (set_published (sp_id p) t <$> l)) + 1)%nat
    = length (filter P l).
Proof.
  intros Hpend Hnd Hin HP.
  assert (∀ l' : list ScheduledPost, sp_id p ∉ sp_id <$> l' →
                set_published (sp_id p) t <$> l' = l') as Hid.
  { intros l' Hnot. induction l' as [|y l' IH]; [done|].
    rewrite fmap_cons in Hnot. apply not_elem_of_cons in Hnot as [Hy Hnot].
    rewrite fmap_cons, IH by done. f_equal.
    unfold set_published. by rewrite bool_decide_eq_false_2. }
  induction l as [|x l IH]; [by apply elem_of_nil in Hin|].
  rewrite fmap_cons in Hnd. apply NoDup_cons in Hnd as [Hx Hnd].
  rewrite fmap_cons.
  destruct (decide (sp_id x = sp_id p)) as [Heq|Hne].
  - assert (x = p) as ->.
    { apply elem_of_cons in Hin as [->|Hin]; [done|].
      exfalso. apply Hx. rewrite Heq. apply list_elem_of_fmap. by exists p. }
    rewrite Hid by done.
    rewrite filter_cons_False, filter_cons_True by
      (try done; unfold set_published; rewrite bool_decide_eq_true_2 by done;
       intros HP'; by apply Hpend in HP').
    simpl. lia.
  - apply elem_of_cons in Hin as [->|Hin]; [done|].
    assert (set_published (sp_id p) t x = x) as ->.
    { unfold set_published. by rewrite bool_decide_eq_false_2. }
    destruct (decide (P x)).
    + rewrite !filter_cons_True by done. simpl. by rewrite IH.
    + rewrite !filter_cons_False by done. by apply IH.
Qed.

Lemma get_or_create_user_known now telegram_id full_name u w :
  select_user telegram_id (db w) = Some u →
  get_or_create_user Completes now telegram_id None full_name w
    = (Returned (Some u), w).
Proof.
  intros Hsel. unfold get_or_create_user, try_except, write.
  rewrite Hsel. destruct w as [d tr lg sc]. cbn. by destruct (is_sqlite d).
Qed.

Lemma get_user_stats_known now telegram_id u w :
  select_user telegram_id (db w) = Some u →
  get_user_stats Completes Completes now telegram_id w
    = (Returned
         (Some (mk_stats u (count_active_channels (u_id u) (db w))
                  (count_posts_today now (u_id u) (db w))
                  (u_channels_limit u) (u_posts_per_day_limit u))), w).
Proof.
  intros Hsel. unfold get_user_stats, try_except, bind.
  rewrite (get_or_create_user_known _ _ _ _ _ Hsel).
  by destruct w.
Qed.

Lemma handle_schedule_post_known now telegram_id fsm u w :
  select_user telegram_id (db w) = Some u →
  handle_schedule_post Completes Completes Completes now telegram_id fsm w
    = (Returned
         (let posts_today := count_posts_today now (u_id u) (db w) in
          if bool_decide (posts_today >= u_posts_per_day_limit u)
          then (start_limit_reached posts_today (u_posts_per_day_limit u),
                fsm)
          else
            match select_user_channels (u_id u) (db w) with
            | [] => (start_no_channels, fsm)
            | channels =>
                (start_choose_channel (channel_buttons channels),
                 mk_fsm (Some waiting_for_channel)
                   (mk_data (Some (u_id u)) (sd_channel_id (fsm_data fsm))
                      (sd_message_text (fsm_data fsm))
                      (sd_photo_id (fsm_data fsm))))
            end), w).
Proof.
  intros Hsel. unfold handle_schedule_post, bind.
  rewrite (get_user_stats_known _ _ _ _ Hsel). cbn -[select_user_channels].
  case_bool_decide; [done|].
  unfold get_user_channels, try_except, driver. cbn -[select_user_channels].
  destruct w as [d tr lg sc]. cbn -[select_user_channels].
  by destruct (select_user_channels (u_id u) d).
Qed.

(** X13: a post the time-entry handler stores takes one slot of its
    owner's day: read on the date of the handler's clock, the owner's
    count of pending posts of today is one more than before, the post is
    in the list [get_todays_posts] returns, and the count of every other
    user is unchanged. *)
Theorem scheduled_post_takes_slot text t_today t_lead t_horizon data call
    now_db answer_call w post_id s now :
  result (process_post_time text t_today t_lead t_horizon data call now_db
            answer_call) w
    = Returned (reply_scheduled post_id s) →
  date_of now = date_of t_today →
  let w' :=
    run (process_post_time text t_today t_lead t_horizon data call now_db
           answer_call) w
  in
  ∃ user_id,
    sd_user_id data = Some user_id ∧
    count_posts_today now user_id (db w')
      = count_posts_today now user_id (db w) + 1 ∧
    (∃ posts sp,
       result (get_todays_posts Completes now user_id) w' = Returned posts ∧
       sp ∈ posts ∧ sp_id sp = post_id ∧ sp_scheduled_time sp = s) ∧
    (∀ other, other ≠ user_id →
       count_posts_today now other (db w')
         = count_posts_today now other (db w)).
Proof.
  intros Hr Hdate w'.
  destruct (process_post_time_stored _ _ _ _ _ _ _ _ _ _ _ Hr)
    as (user_id & channel_id & message_text & Hu & _ & _ & Hs & _ & Hdb).
  exists user_id. split; [done|].
  set (sp := mk_post post_id user_id channel_id message_text
               (sd_photo_id data) s false now_db None) in Hdb.
  assert (sp ∈ todays_pending now user_id (db w')) as Hin.
  { apply elem_of_todays_pending. unfold w'. rewrite Hdb. simpl.
    split; [apply elem_of_app; right; apply list_elem_of_here|].
    by rewrite Hs, Hdate. }
  split; [|split].
  - unfold count_posts_today, w'. rewrite Hdb, todays_pending_append.
    rewrite filter_cons_True by (simpl; by rewrite Hs, Hdate).
    rewrite length_app. simpl. lia.
  - exists (merge_sort scheduled_before (todays_pending now user_id (db w'))),
      sp.
    split; [by destruct w'|]. split; [|done].
    by rewrite merge_sort_Permutation.
  - intros other Hother. unfold count_posts_today, w'.
    rewrite Hdb, todays_pending_append.
    rewrite filter_cons_False by (simpl; intros [? _]; congruence).
    by rewrite app_nil_r.
Qed.

Lemma scheduled_post_takes_slot_witness :
  count_posts_today (days 1) 1
    (db (run (process_post_time (Some "23:30") (days 1) (days 1) (days 1)
                sample_data Completes (days 1) Completes) sample_world))
  = count_posts_today (days 1) 1 (db sample_world) + 1.
Proof.
  destruct (scheduled_post_takes_slot (Some "23:30") (days 1) (days 1)
              (days 1) sample_data Completes (days 1) Completes sample_world 3
              (days 1 + hours 23 + minutes 30) (days 1) eq_refl eq_refl)
    as (user_id & Hu & Hcount & _).
  injection Hu as <-. exact Hcount.
Defined.

(** X14: the daily limit counts the pending posts of today. With the
    user's row present and the store answering, the handler that opens
    the conversation refuses exactly when the user's pending posts
    scheduled for the current date are at least the user's limit, and it
    then leaves the conversation as it was; and marking one of these
    posts published lowers the count by one. *)
Theorem daily_limit_counts_pending now telegram_id fsm u w :
  well_formed (db w) →
  select_user telegram_id (db w) = Some u →
  ((∃ posts_today posts_limit,
      result (handle_schedule_post Completes Completes Completes now
                telegram_id fsm) w
        = Returned (start_limit_reached posts_today posts_limit, fsm))
   ↔ count_posts_today now (u_id u) (db w) >= u_posts_per_day_limit u) ∧
  (∀ p t, p ∈ todays_pending now (u_id u) (db w) →
     count_posts_today now (u_id u)
       (db (run (mark_post_published Completes t (sp_id p)) w))
     = count_posts_today now (u_id u) (db w) - 1).
Proof.
  intros Hwf Hsel. split.
  - unfold result. rewrite (handle_schedule_post_known _ _ _ _ _ Hsel).
    cbn -[select_user_channels]. case_bool_decide as Hlim.
    + split; [done|]. intros _. by eexists _, _.
    + split; [|done]. intros (a & b & Heq).
      by destruct (select_user_channels _ _).
  - intros p t Hp. unfold count_posts_today, todays_pending. simpl.
    apply elem_of_todays_pending in Hp as (Hin & Hu & Hd & Hpub).
    rewrite <- (pending_after_mark _ (scheduled_posts (db w)) p t);
      [lia| |apply Hwf|done|done].
    by intros sp (_ & _ & ?).
Qed.

Lemma daily_limit_counts_pending_witness :
  count_posts_today 0 1
    (db (run (mark_post_published Completes 600 1) sample_world))
  = count_posts_today 0 1 (db sample_world) - 1.
Proof.
  apply (proj2 (daily_limit_counts_pending 0 1001 (mk_fsm None sample_data)
                  sample_user sample_world sample_db_well_formed eq_refl)
           sample_post_1 600).
  apply list_elem_of_here.
Defined.

(** ** Users: creation and subscription *)

Lemma select_user_Some telegram_id d u :
  select_user telegram_id d = Some u →
  u ∈ users d ∧ u_telegram_id u = telegram_id.
Proof.
  unfold select_user. intros Hh. apply head_Some_elem_of in Hh.
  apply list_elem_of_filter in Hh. tauto.
Qed.

Lemma select_user_fmap (f : User → User) telegram_id d seq :
  (∀ u, u_telegram_id (f u) = u_telegram_id u) →
  select_user telegram_id (with_users d (f <$> users d) seq)
    = f <$> select_user telegram_id d.
Proof.
  intros Hf. unfold select_user. simpl.
  induction (users d) as [|x l IH]; [done|].
  rewrite fmap_cons.
  destruct (decide (u_telegram_id x = telegram_id)).
  - rewrite !filter_cons_True by (by rewrite ?Hf). done.
  - rewrite !filter_cons_False by (by rewrite ?Hf). done.
Qed.

Lemma same_account_set_username id username now u :
  same_account u (set_username id username now u).
Proof. unfold set_username. by case_bool_decide. Qed.

Lemma get_or_create_user_completes now telegram_id username full_name w :
  let w' :=
    run (get_or_create_user Completes now telegram_id username full_name) w
  in
  ∃ u u',
    result (get_or_create_user Completes now telegram_id username full_name) w
      = Returned (Some u) ∧
    u_telegram_id u = telegram_id ∧
    select_user telegram_id (db w') = Some u' ∧
    same_account u u' ∧
    match select_user telegram_id (db w) with
    | Some u0 =>
        u = u0 ∧ length (users (db w')) = length (users (db w))
        ∧ users_seq (db w') = users_seq (db w)
    | None =>
        users (db w') = (users (db w) ++ [u])%list
        ∧ u_id u = users_seq (db w) + 1
    end.
Proof.
  unfold result, run, get_or_create_user, try_except, write.
  destruct (select_user telegram_id (db w)) as [u0|] eqn:Hsel.
  - destruct (select_user_Some _ _ _ Hsel) as [Hin Htid].
    destruct (is_sqlite (db w)); simpl.
    + exists u0, u0. rewrite Hsel. done.
    + destruct (_ && _); simpl.
      * exists u0, (set_username (u_id u0) username now u0).
        split; [done|]. split; [done|]. split.
        { rewrite select_user_fmap, Hsel; [done|].
          intros u. unfold set_username. by case_bool_decide. }
        split; [apply same_account_set_username|].
        by rewrite length_fmap.
      * exists u0, u0. rewrite Hsel. done.
  - pose proof (select_user_insert now telegram_id username full_name (db w)
                  Hsel) as Hins.
    destruct (is_sqlite (db w)); simpl in *.
    + rewrite Hins. eexists _, _. split; [done|]. done.
    + eexists _, _. split; [done|]. rewrite Hins. done.
Qed.

(** X15: a call of [get_or_create_user] that the store answers returns
    a row of the given Telegram id, and a second call for the same id,
    whatever user name it is given, returns a row of the same account
    (same identifier, limits and subscription) and adds no row: the
    table has as many rows, and the sequence the same value, as after
    the first call. *)
Theorem get_or_create_user_twice now1 now2 telegram_id username1 full_name1
    username2 full_name2 w :
  let w1 :=
    run (get_or_create_user Completes now1 telegram_id username1 full_name1) w
  in
  let w2 :=
    run (get_or_create_user Completes now2 telegram_id username2 full_name2)
      w1 in
  ∃ u1 u2,
    result (get_or_create_user Completes now1 telegram_id username1
              full_name1) w = Returned (Some u1) ∧
    result (get_or_create_user Completes now2 telegram_id username2
              full_name2) w1 = Returned (Some u2) ∧
    u_telegram_id u1 = telegram_id ∧
    same_account u1 u2 ∧
    length (users (db w2)) = length (users (db w1)) ∧
    users_seq (db w2) = users_seq (db w1).
Proof.
  intros w1 w2.
  destruct (get_or_create_user_completes now1 telegram_id username1
              full_name1 w) as (u1 & u1' & Hr1 & Ht1 & Hsel1 & Hsame1 & _).
  destruct (get_or_create_user_completes now2 telegram_id username2
              full_name2 w1) as (u2 & u2' & Hr2 & _ & _ & _ & Hcase).
  fold w1 in Hsel1. rewrite Hsel1 in Hcase.
  destruct Hcase as (-> & Hlen & Hseq).
  by exists u1, u1'.
Qed.

Lemma with_users_same d : with_users d (users d) (users_seq d) = d.
Proof. by destruct d. Qed.

(** X16: what [update_user_subscription] reports when the store answers.
    For a Telegram id with a row (unique by the schema) it returns True.
    For a Telegram id with no row the statement updates nothing and the
    store is unchanged; PostgreSQL then returns False (the status is not
    [UPDATE 1]) but SQLite returns True. *)
Theorem subscription_of_unknown_user now_local now_db telegram_id subscribed
    days_ w :
  well_formed (db w) →
  let m :=
    update_user_subscription Completes now_local now_db telegram_id
      subscribed days_ in
  (is_Some (select_user telegram_id (db w)) → result m w = Returned true) ∧
  (select_user telegram_id (db w) = None →
     result m w = Returned (is_sqlite (db w)) ∧ db (run m w) = db w).
Proof.
  intros Hwf m. unfold m, result, run, update_user_subscription, try_except,
    write. cbn -[filter]. split.
  - intros [u Hsel]. destruct (is_sqlite (db w)); cbn -[filter]; [done|].
    rewrite bool_decide_eq_true_2; [done|].
    pose proof (filter_key_unique u_telegram_id telegram_id (users (db w))
                  (wf_telegram_ids _ Hwf)) as Hle.
    rewrite (list_filter_iff _ (λ u, u_telegram_id u = telegram_id)) in Hle
      by (intros; split; congruence).
    unfold select_user in Hsel.
    destruct (filter _ (users (db w))) as [|x l]; [done|]. simpl in *. lia.
  - intros Hsel.
    assert (grant telegram_id subscribed (now_local + days days_) now_db
              <$> users (db w) = users (db w)) as ->.
    { rewrite <- (list_fmap_id (users (db w))) at 2.
      apply list_fmap_ext. intros i u Hi. unfold grant.
      rewrite bool_decide_eq_false_2; [done|].
      apply (select_user_None _ _ _ Hsel), (list_elem_of_lookup_2 _ i), Hi. }
    rewrite with_users_same. split; [|done].
    unfold select_user in Hsel.
    destruct (filter _ (users (db w))) as [|x l]; [|done].
    by destruct (is_sqlite (db w)).
Qed.

Lemma subscription_of_unknown_user_witness :
  result (update_user_subscription Completes 0 0 1001 true 30) sample_world
    = Returned true ∧
  result (update_user_subscription Completes 0 0 7 true 30) sample_world
    = Returned false.
Proof.
  destruct (subscription_of_unknown_user 0 0 1001 true 30 sample_world
              sample_db_well_formed) as [Hknown _].
  destruct (subscription_of_unknown_user 0 0 7 true 30 sample_world
              sample_db_well_formed) as [_ Hunknown].
  split; [apply Hknown; by eexists|].
  by destruct (Hunknown eq_refl) as [-> _].
Defined.

(** ** The conversation that schedules a post *)

Lemma prefix_app (t s : string) : String.prefix t (t +:+ s) = true.
Proof.
  induction t as [|a t IH]; [by destruct s|].
  simpl. by destruct (ascii_dec a a).
Qed.

Lemma remove_all_from_skip (t old s : string) :
  remove_all_from (String.length t) old (t +:+ s) = remove_all_from O old s.
Proof. induction t as [|a t IH]; [done|]. simpl. exact IH. Qed.

Lemma remove_all_from_absent (old s : string) :
  occurs old s = false → remove_all_from O old s = s.
Proof.
  induction s as [|c s IH]; [done|].
  cbn [occurs remove_all_from]. intros [Hp Ho]%orb_false_iff.
  rewrite Hp. cbn [andb]. by rewrite IH.
Qed.

Lemma remove_all_from_length (k : nat) (old s : string) :
  (String.length (remove_all_from k old s) ≤ String.length s)%nat.
Proof.
  revert k. induction s as [|c s IH]; intros k; [by destruct k|].
  cbn [remove_all_from]. destruct k as [|k].
  - destruct (_ && _); cbn [String.length].
    + specialize (IH (String.length old - 1)%nat). lia.
    + specialize (IH O). lia.
  - specialize (IH k). cbn [String.length]. lia.
Qed.

Lemma remove_all_from_shorter (old s : string) :
  old ≠ EmptyString → occurs old s = true →
  (String.length (remove_all_from O old s) < String.length s)%nat.
Proof.
  intros Hold. induction s as [|c s IH].
  - destruct old; [done|]. discriminate.
  - cbn [occurs remove_all_from]. intros Ho.
    destruct (String.prefix old (String c s)) eqn:Hp.
    + rewrite bool_decide_eq_false_2 by done. cbn [andb negb String.length].
      pose proof (remove_all_from_length (String.length old - 1) old s). lia.
    + cbn [andb orb] in *. cbn [String.length].
      specialize (IH Ho). lia.
Qed.

Lemma remove_all_marker (id : string) :
  remove_all select_channel_marker (select_channel_marker +:+ id)
    = remove_all_from O select_channel_marker id.
Proof.
  unfold remove_all.
  change (select_channel_marker +:+ id)
    with (String "s" ("elect_channel_" +:+ id)).
  cbn [remove_all_from].
  change (String "s" ("elect_channel_" +:+ id))
    with (select_channel_marker +:+ id).
  rewrite prefix_app. rewrite bool_decide_eq_false_2 by done.
  cbn [andb negb].
  apply (remove_all_from_skip "elect_channel_").
Qed.

(** X17: the button the opening handler builds for a channel carries the
    marker followed by the channel id, and the callback handler recovers
    the id by removing every occurrence of the marker. The id it stores
    is the id of the channel exactly when the marker does not occur in
    the id itself. *)
Theorem selected_channel_round_trip (c : Channel) (cs : list Channel)
    (fsm : Fsm) :
  c ∈ cs →
  let callback_data := select_channel_marker +:+ c_channel_id c in
  channel_button (short_title (c_channel_title c)) callback_data
    ∈ channel_buttons cs ∧
  fsm_state (callback_select_channel callback_data fsm)
    = Some waiting_for_text ∧
  (sd_channel_id (fsm_data (callback_select_channel callback_data fsm))
     = Some (c_channel_id c)
   ↔ occurs select_channel_marker (c_channel_id c) = false).
Proof.
  intros Hc callback_data. split; [|split; [done|]].
  - unfold channel_buttons. apply elem_of_app. left.
    apply list_elem_of_fmap. by exists c.
  - unfold callback_select_channel, callback_data. cbn [fsm_data sd_channel_id].
    rewrite remove_all_marker. split.
    + intros [= Heq].
      destruct (occurs select_channel_marker (c_channel_id c)) eqn:Ho;
        [|done].
      pose proof (remove_all_from_shorter select_channel_marker
                    (c_channel_id c) ltac:(done) Ho) as Hlt.
      rewrite Heq in Hlt. lia.
    + intros Ho. by rewrite remove_all_from_absent.
Qed.

Lemma selected_channel_round_trip_witness :
  sd_channel_id
    (fsm_data (callback_select_channel
                 (select_channel_marker +:+ c_channel_id sample_channel)
                 cleared))
  = Some (c_channel_id sample_channel).
Proof.
  apply (selected_channel_round_trip sample_channel [sample_channel] cleared).
  - apply list_elem_of_here.
  - reflexivity.
Defined.

Lemma process_post_text_keeps_user text caption photo fsm :
  sd_user_id (fsm_data (process_post_text text caption photo fsm).2)
    = sd_user_id (fsm_data fsm) ∧
  sd_channel_id (fsm_data (process_post_text text caption photo fsm).2)
    = sd_channel_id (fsm_data fsm).
Proof. unfold process_post_text. by destruct (_ && _). Qed.

Lemma process_post_time_without_user text t_today t_lead t_horizon data call
    now_db answer_call w :
  sd_user_id data = None →
  run (process_post_time text t_today t_lead t_horizon data call now_db
         answer_call) w = w
  ∧ ∀ post_id s,
      result (process_post_time text t_today t_lead t_horizon data call
                now_db answer_call) w ≠ Returned (reply_scheduled post_id s).
Proof.
  intros Hu. unfold run, result, process_post_time.
  destruct text as [text|]; [|by destruct answer_call].
  case_bool_decide; [by destruct answer_call|].
  destruct (strptime_HM _); [|by destruct answer_call].
  destruct (check_post_time _ _ _); [|by destruct answer_call..].
  rewrite Hu. by destruct answer_call.
Qed.

(** X18: once a conversation has ended (the post was scheduled, the data
    were incomplete, or the save failed), a button of its old keyboard
    cannot be used to schedule another post without passing the opening
    handler and its check of the daily limit again: the callback, the
    text and the time are handled, but the time-entry handler finds no
    user id in the state, stores nothing, arms no job, and does not
    answer that a post was scheduled. *)
Theorem stale_button_cannot_schedule r fsm0 callback_data text caption photo
    time_text t_today t_lead t_horizon call now_db answer_call w :
  state_after_time r fsm0 = cleared →
  let fsm1 := callback_select_channel callback_data (state_after_time r fsm0)
  in
  let fsm2 := (process_post_text text caption photo fsm1).2 in
  let m :=
    process_post_time time_text t_today t_lead t_horizon (fsm_data fsm2)
      call now_db answer_call in
  run m w = w ∧
  ∀ post_id s, result m w ≠ Returned (reply_scheduled post_id s).
Proof.
  intros Hend fsm1 fsm2 m.
  apply process_post_time_without_user.
  unfold fsm2. rewrite (proj1 (process_post_text_keeps_user _ _ _ _)).
  unfold fsm1. by rewrite Hend.
Qed.

Lemma stale_button_cannot_schedule_witness :
  run (process_post_time (Some "23:30") 0 0 0
         (fsm_data
            (process_post_text (Some "again") None []
               (callback_select_channel "select_channel_@news"
                  (state_after_time (reply_scheduled 3 900)
                     (mk_fsm (Some waiting_for_time) sample_data)))).2)
         Completes 0 Completes) sample_world
  = sample_world.
Proof.
  apply (stale_button_cannot_schedule (reply_scheduled 3 900)
           (mk_fsm (Some waiting_for_time) sample_data)
           "select_channel_@news" (Some "again") None [] (Some "23:30")
           0 0 0 Completes 0 Completes sample_world eq_refl).
Defined.

(** X19: the conversation from the opening handler to the stored post.
    For a user with a row, below the daily limit, who picks one of the
    listed channels (its id free of the callback marker and not empty),
    sends a text and then a time the window accepts, with the store
    answering throughout and the answer of the time-entry handler being
    sent: the keyboard offers the channel, the text handler asks for the
    time, the time-entry handler answers that the post is scheduled
    under the next value of the sequence, its one-shot job is armed for
    the scheduled time, and the executor's query for that identifier
    finds the post bound to the chosen channel and to the user's
    Telegram id. *)
Theorem conversation_schedules_deliverable_post now telegram_id fsm u c text
    caption photo time_text post_time t_today t_lead t_horizon now_db w :
  store_ok (db w) →
  select_user telegram_id (db w) = Some u →
  count_posts_today now (u_id u) (db w) < u_posts_per_day_limit u →
  c ∈ select_user_channels (u_id u) (db w) →
  occurs select_channel_marker (c_channel_id c) = false →
  c_channel_id c ≠ EmptyString →
  text ≠ EmptyString →
  time_text ≠ EmptyString →
  strptime_HM (strip (code_points time_text)) = Some post_time →
  check_post_time t_lead t_horizon (combine (date_of t_today) post_time)
    = TimeAccepted →
  let callback_data := select_channel_marker +:+ c_channel_id c in
  let post_id := posts_seq (db w) + 1 in
  let s := combine (date_of t_today) post_time in
  ∃ keyboard fsm1 fsm3,
    handle_schedule_post Completes Completes Completes now telegram_id fsm w
      = (Returned (start_choose_channel keyboard, fsm1), w) ∧
    channel_button (short_title (c_channel_title c)) callback_data
      ∈ keyboard ∧
    process_post_text (Some text) caption photo
      (callback_select_channel callback_data fsm1) = (reply_ask_time, fsm3) ∧
    let m :=
      process_post_time (Some time_text) t_today t_lead t_horizon
        (fsm_data fsm3) Completes now_db Completes in
    result m w = Returned (reply_scheduled post_id s) ∧
    post_jobs (scheduler (run m w)) !! post_id = Some s ∧
    select_post_to_publish post_id (db (run m w))
      = Some (mk_row (mk_post post_id (u_id u) (c_channel_id c) text
                        (last photo) s false now_db None)
                telegram_id (c_channel_id c)).
Proof.
  intros Hok Hsel Hlim Hc Hmark Hcid Htext Htime Hparse Hcheck
    callback_data post_id s.
  destruct (select_user_Some _ _ _ Hsel) as [Hu Htid].
  assert (1 ≤ u_id u) as Huid.
  { pose proof (ok_user_ids _ Hok) as Hids.
    rewrite Forall_forall in Hids. by apply Hids. }
  pose proof (ok_posts_seq _ Hok) as Hseq.
  pose proof Hc as Hc'.
  apply elem_of_select_user_channels in Hc' as (Hcin & Hcu & Hca).
  rewrite (handle_schedule_post_known _ _ _ _ _ Hsel).
  cbn zeta. rewrite bool_decide_eq_false_2 by lia.
  destruct (select_user_channels (u_id u) (db w)) as [|c0 cs] eqn:Hcs;
    [by apply elem_of_nil in Hc|].
  eexists _, _, _. split; [reflexivity|]. split.
  { unfold channel_buttons. apply elem_of_app. left.
    apply list_elem_of_fmap. by exists c. }
  unfold process_post_text. cbn [truthy_str].
  rewrite (bool_decide_eq_false_2 (text = EmptyString)) by done.
  cbn [negb andb]. split; [reflexivity|].
  cbn zeta.
  unfold callback_select_channel, callback_data. cbn [fsm_data sd_user_id
    sd_channel_id sd_message_text sd_photo_id].
  rewrite remove_all_marker, remove_all_from_absent by done.
  set (sp := mk_post post_id (u_id u) (c_channel_id c) text (last photo) s
               false now_db None).
  assert (process_post_time (Some time_text) t_today t_lead t_horizon
            (mk_data (Some (u_id u)) (Some (c_channel_id c)) (Some text)
               (last photo)) Completes now_db Completes w
          = (Returned (reply_scheduled post_id s),
             run (add_post_job post_id s)
               (set_db (with_posts (db w) (scheduled_posts (db w) ++ [sp])
                          post_id) w))) as Hrun.
  { unfold process_post_time.
    rewrite (bool_decide_eq_false_2 (time_text = EmptyString)) by done.
    rewrite Hparse. cbn beta iota zeta. rewrite Hcheck.
    cbn [sd_user_id sd_channel_id sd_message_text sd_photo_id truthy_str].
    unfold truthy_int.
    rewrite (bool_decide_eq_false_2 (u_id u = 0)) by lia.
    rewrite (bool_decide_eq_false_2 (c_channel_id c = EmptyString)) by done.
    rewrite (bool_decide_eq_false_2 (text = EmptyString)) by done.
    cbn [negb andb].
    unfold_handler. cbn.
    rewrite (bool_decide_eq_true_2 (Exists _ (users (db w))))
      by (apply Exists_exists; by exists u).
    rewrite andb_false_r. cbn. fold post_id.
    rewrite (bool_decide_eq_false_2 (post_id = 0)) by (unfold post_id; lia).
    done. }
  unfold result, run. rewrite Hrun. cbn [fst snd].
  split; [done|]. split.
  { unfold add_post_job. cbn. apply lookup_insert_eq. }
  assert (db (run (add_post_job post_id s)
                (set_db (with_posts (db w) (scheduled_posts (db w) ++ [sp])
                           post_id) w))
          = with_posts (db w) (scheduled_posts (db w) ++ [sp]) post_id)
    as -> by done.
  assert (sp_id sp = post_id) as Hid by done.
  rewrite <- Hid, <- Htid.
  apply (select_post_to_publish_joined _ sp u c).
  - apply (ok_keys _ (store_ok_append_post _ sp Hok Hid)).
  - apply elem_of_joined. simpl.
    split; [apply elem_of_app; right; apply list_elem_of_here|]. done.
  - done.
Qed.

Lemma conversation_schedules_deliverable_post_witness :
  select_post_to_publish 3
    (db (run (process_post_time (Some "23:30") 0 0 0
                (mk_data (Some 1) (Some "@news") (Some "again") None)
                Completes 0 Completes) sample_world))
  = Some (mk_row (mk_post 3 1 "@news" "again" None
                    (hours 23 + minutes 30) false 0 None) 1001 "@news").
Proof.
  assert (sample_channel ∈ select_user_channels 1 (db sample_world)) as Hc
    by apply list_elem_of_here.
  destruct (conversation_schedules_deliverable_post 0 1001 cleared
              sample_user sample_channel "again" None [] "23:30"
              (mk_time 23 30) 0 0 0 0 sample_world sample_db_store_ok
              eq_refl eq_refl Hc eq_refl ltac:(discriminate)
              ltac:(discriminate) ltac:(discriminate) eq_refl eq_refl)
    as (keyboard & fsm1 & fsm3 & Hstart & _ & Htext & _ & _ & Hpost).
  injection Hstart as _ <-. injection Htext as <-. exact Hpost.
Defined.

(** ** The channel limit *)

Lemma handle_add_channel_known now telegram_id fsm u w :
  select_user telegram_id (db w) = Some u →
  handle_add_channel Completes Completes now telegram_id fsm w
    = (Returned
         (let channels_count := count_active_channels (u_id u) (db w) in
          if bool_decide (channels_count >= u_channels_limit u)
          then (add_limit_reached channels_count (u_channels_limit u), fsm)
          else (add_send_link,
                mk_fsm (Some waiting_for_channel_link) (fsm_data fsm))), w).
Proof.
  intros Hsel. unfold handle_add_channel, bind.
  rewrite (get_user_stats_known _ _ _ _ Hsel). cbn.
  by case_bool_decide.
Qed.

(** Among rows with distinct keys, the rows of one key that satisfy [Q]
    are one or none. *)
Lemma count_of_key {A K} `{EqDecision K} (key : A → K) (k : K)
    (Q : A → Prop) `{!∀ x, Decision (Q x)} (l : list A) :
  NoDup (key <$> l) →
  length (filter (λ x, key x = k ∧ Q x) l)
    = if bool_decide (Exists (λ x, key x = k ∧ Q x) l) then 1%nat else 0%nat.
Proof.
  induction l as [|x l IH]; [done|].
  rewrite fmap_cons, NoDup_cons. intros [Hx Hnd].
  destruct (decide (key x = k ∧ Q x)) as [HP|HP].
  - rewrite filter_cons_True by done.
    rewrite (bool_decide_eq_true_2 (Exists _ (x :: l)))
      by (by apply Exists_cons_hd).
    simpl. f_equal. rewrite IH by done.
    rewrite bool_decide_eq_false_2; [done|].
    intros (y & Hy & Hk & _)%Exists_exists. apply Hx.
    apply list_elem_of_fmap. exists y. destruct HP as [HP _]. by rewrite HP, Hk.
  - rewrite filter_cons_False by done. rewrite IH by done.
    rewrite (bool_decide_ext (Exists (λ x, key x = k ∧ Q x) (x :: l))
               (Exists (λ x, key x = k ∧ Q x) l)); [done|].
    rewrite Exists_cons. tauto.
Qed.

Lemma filter_length_split {A} (P R : A → Prop) `{!∀ x, Decision (P x)}
    `{!∀ x, Decision (R x)} (l : list A) :
  length (filter P l)
    = (length (filter (λ x, R x ∧ P x) l)
       + length (filter (λ x, ¬ R x ∧ P x) l))%nat.
Proof.
  induction l as [|x l IH]; [done|].
  destruct (decide (P x)) as [HP|HP], (decide (R x)) as [HR|HR];
    rewrite ?(filter_cons_True P), ?(filter_cons_False P),
      ?(filter_cons_True (λ x, R x ∧ P x)),
      ?(filter_cons_False (λ x, R x ∧ P x)),
      ?(filter_cons_True (λ x, ¬ R x ∧ P x)),
      ?(filter_cons_False (λ x, ¬ R x ∧ P x)) by tauto;
    simpl; lia.
Qed.

(** X20: the channel limit counts the active channels. With the user's
    row present and the store answering, the handler that opens the
    adding of a channel refuses exactly when the user's active channels
    are at least the user's limit, and then leaves the conversation as
    it was. When [add_channel] returns True the owner's count grows by
    one, unless the channel was already among the owner's active
    channels: adding that one again leaves the count as it is. *)
Theorem channel_limit_counts_active now telegram_id fsm u w :
  store_ok (db w) →
  select_user telegram_id (db w) = Some u →
  ((∃ channels_count channels_limit,
      result (handle_add_channel Completes Completes now telegram_id fsm) w
        = Returned (add_limit_reached channels_count channels_limit, fsm))
   ↔ count_active_channels (u_id u) (db w) >= u_channels_limit u) ∧
  (∀ call t new_id channel_id channel_title,
     result (add_channel call t new_id (u_id u) channel_id channel_title) w
       = Returned true →
     count_active_channels (u_id u)
       (db (run (add_channel call t new_id (u_id u) channel_id
                   channel_title) w))
     = count_active_channels (u_id u) (db w)
       + (if bool_decide
               (Exists (λ c, (c_user_id c, c_channel_id c)
                               = (u_id u, channel_id)
                             ∧ c_is_active c = true) (channels (db w)))
          then 0 else 1)).
Proof.
  intros Hok Hsel. split.
  - unfold result. rewrite (handle_add_channel_known _ _ _ _ _ Hsel).
    cbn. case_bool_decide as Hlim.
    + split; [done|]. intros _. by eexists _, _.
    + split; [|done]. by intros (a & b & Heq).
  - intros call t new_id channel_id channel_title Hres.
    destruct (add_channel_returns_true _ _ _ _ _ _ _ Hres)
      as (d' & Hins & ->). cbn [db set_db].
    pose proof (ok_keys _ (store_ok_insert_channel _ _ _ _ _ _ _ Hok Hins))
      as Hwf'.
    pose proof (wf_channels _ (ok_keys _ Hok)) as Hnd.
    pose proof (wf_channels _ Hwf') as Hnd'.
    destruct (insert_channel_channels _ _ _ _ _ _ _ Hins)
      as (_ & _ & (c & Hc & [Hcu Hci] & _ & Hca) & Hrest).
    set (key := λ c : Channel, (c_user_id c, c_channel_id c)) in *.
    set (k := (u_id u, channel_id)).
    set (P := λ c : Channel, c_user_id c = u_id u ∧ c_is_active c = true).
    set (Q := λ c : Channel, c_is_active c = true).
    assert (∀ l : list Channel,
              length (filter P l)
              = (length (filter (λ c, key c = k ∧ Q c) l)
                 + length (filter (λ c, ¬ key c = k ∧ P c) l))%nat) as Hsplit.
    { intros l. rewrite (filter_length_split P (λ c, key c = k) l).
      f_equal. f_equal. apply list_filter_iff. intros x.
      unfold key, k, P, Q. simpl. split; [tauto|].
      intros [Hx ?]. split; [done|]. split; [congruence|done]. }
    unfold count_active_channels. fold P.
    rewrite (Hsplit (channels d')), (Hsplit (channels (db w))).
    rewrite !(count_of_key key k Q) by done.
    rewrite (bool_decide_eq_true_2 (Exists _ (channels d'))).
    2: { apply Exists_exists. exists c. unfold key, k, Q.
         by rewrite Hcu, Hci. }
    assert (filter (λ c, ¬ key c = k ∧ P c) (channels d')
            ≡ₚ filter (λ c, ¬ key c = k ∧ P c) (channels (db w))) as ->.
    { apply NoDup_Permutation.
      - apply NoDup_filter. by apply NoDup_fmap_1 in Hnd'.
      - apply NoDup_filter. by apply NoDup_fmap_1 in Hnd.
      - intros x. rewrite !list_elem_of_filter.
        split; intros [[Hk HP] Hin]; (split; [done|]);
          (apply Hrest; [|done]); intros [Hxu Hxc]; apply Hk;
          unfold key, k; by rewrite Hxu, Hxc. }
    unfold key, k, Q. case_bool_decide; lia.
Qed.

Lemma channel_limit_counts_active_witness :
  count_active_channels 1
    (db (run (add_channel Completes 10 2 1 "@sport" "Sport") sample_world))
  = count_active_channels 1 (db sample_world) + 1 ∧
  count_active_channels 1
    (db (run (add_channel Completes 10 2 1 "@news" "Latest") sample_world))
  = count_active_channels 1 (db sample_world) + 0.
Proof.
  pose proof (proj2 (channel_limit_counts_active 0 1001 cleared sample_user
                       sample_world sample_db_store_ok eq_refl)) as Hcount.
  split.
  - apply (Hcount Completes 10 2 "@sport" "Sport" eq_refl).
  - apply (Hcount Completes 10 2 "@news" "Latest" eq_refl).
Defined.
